(** * rss-telegram: feed monitoring and delivery tracking

    A shallow embedding of [src/rss_telegram.py] and [src/config.py],
    followed by the properties of the feed monitor that are stated in
    the repository's specification.

    Layout of the development:
    - [Text]:    Python [str] values and the string methods the program calls;
    - [Re]:      the two regular expressions of the program;
    - [Exn]:     the exceptions that can be raised and the [except] filters;
    - [Monitor]: configuration, feed entries, the world the program runs in,
                 and the functions of [rss_telegram.py];
    - the theorems. *)

From Stdlib Require Import Ascii String NArith ZArith Lia.
From stdpp Require Import base option list gmap.

Set Default Proof Using "Type".

(* ===================================================================== *)
(** ** Python strings *)
(* ===================================================================== *)

Module Text.

(** A Python [str] is a sequence of Unicode code points; [len] counts
    code points, so a [str] is a list of code points and [len] is
    [length]. *)
Abbreviation char := N.
Abbreviation str := (list N).

(** ASCII literals of the source text. *)
Definition lit (s : string) : str := map N_of_ascii (list_ascii_of_string s).

Definition newline : char := 10%N.

(** [str.isspace] on one code point: the characters that [str.split()]
    and [str.strip()] treat as whitespace. *)
Definition isspace (c : char) : bool :=
  ((9 <=? c) && (c <=? 13) || (28 <=? c) && (c <=? 32)
   || (c =? 133) || (c =? 160) || (c =? 5760)
   || (8192 <=? c) && (c <=? 8202)
   || (c =? 8232) || (c =? 8233) || (c =? 8239) || (c =? 8287)
   || (c =? 12288))%N.

(** [s.startswith(p)] *)
Fixpoint startswith (p s : str) : bool :=
  match p, s with
  | [], _ => true
  | _ :: _, [] => false
  | a :: p', b :: s' => (a =? b)%N && startswith p' s'
  end.

(** [s.lstrip()], [s.rstrip()], [s.strip()] *)
Fixpoint lstrip (s : str) : str :=
  match s with
  | [] => []
  | c :: r => if isspace c then lstrip r else s
  end.

Definition rstrip (s : str) : str := rev (lstrip (rev s)).

Definition strip (s : str) : str := rstrip (lstrip s).

(** [s.split()]: the maximal runs of non-whitespace characters.
    [word] holds the run being read, in reverse. *)
Fixpoint split_from (word : str) (s : str) : list str :=
  match s with
  | [] => match word with [] => [] | _ => [rev word] end
  | c :: r =>
      if isspace c
      then match word with
           | [] => split_from [] r
           | _ => rev word :: split_from [] r
           end
      else split_from (c :: word) r
  end.

Definition split (s : str) : list str := split_from [] s.

(** [sep.join(parts)] *)
Fixpoint join (sep : str) (parts : list str) : str :=
  match parts with
  | [] => []
  | [p] => p
  | p :: ps => p ++ sep ++ join sep ps
  end.

(** [f.readlines()] on the text of a file: every line keeps its
    terminating newline. [line] holds the line being read, in reverse. *)
Fixpoint readlines_from (line : str) (s : str) : list str :=
  match s with
  | [] => match line with [] => [] | _ => [rev line] end
  | c :: r =>
      if (c =? newline)%N
      then rev (c :: line) :: readlines_from [] r
      else readlines_from (c :: line) r
  end.

Definition readlines (s : str) : list str := readlines_from [] s.

(** Truth value of a string: the empty string is false. *)
Definition truthy (s : str) : bool :=
  match s with [] => false | _ => true end.

(** [x in l] for a list of strings. *)
Definition contains (x : str) (l : list str) : bool :=
  bool_decide (x ∈ l).

End Text.

Import Text.

(* ===================================================================== *)
(** ** Regular expressions of the program *)
(* ===================================================================== *)

Module Re.

Definition lt_sign : char := 60%N.   (* < *)
Definition gt_sign : char := 62%N.   (* > *)

(** *** [re.sub(r'<[^>]+>', '', s)]

    A match starts at a [<], runs over at least one character other
    than [>] and ends at the first [>]. [pending] is [Some buf] while
    the scan is inside a candidate tag, [buf] being what was read after
    its [<]. A [<] that is directly followed by [>] or that is never
    closed starts no match, and the text is kept. *)
Fixpoint sub_tags_from (pending : option str) (s : str) : str :=
  match s, pending with
  | [], None => []
  | [], Some buf => lt_sign :: buf
  | c :: r, None =>
      if (c =? lt_sign)%N then sub_tags_from (Some []) r
      else c :: sub_tags_from None r
  | c :: r, Some buf =>
      if (c =? gt_sign)%N
      then match buf with
           | [] => lt_sign :: gt_sign :: sub_tags_from None r
           | _ :: _ => sub_tags_from None r
           end
      else sub_tags_from (Some (buf ++ [c])) r
  end.

Definition sub_tags (s : str) : str := sub_tags_from None s.

(** *** [re.search] for the image pattern, with [re.IGNORECASE]

    The pattern is [<img], then [[^>]+], then [src=], a single or double
    quote, the group [(.*?)] and again a single or double quote.

    Letters of the pattern match without regard to case. For a [str]
    pattern the letters [i], [k] and [s] also match their
    case-insensitive equivalents outside ASCII: U+0130 and U+0131,
    U+212A, U+017F. *)
Definition ci_eq (p c : char) : bool :=
  ((c =? p) || ((97 <=? p) && (p <=? 122) && (c =? p - 32))
   || ((p =? 105) && ((c =? 304) || (c =? 305)))
   || ((p =? 107) && (c =? 8490))
   || ((p =? 115) && (c =? 383)))%N.

Fixpoint ci_prefix (p s : str) : option str :=
  match p, s with
  | [], _ => Some s
  | _ :: _, [] => None
  | a :: p', b :: s' => if ci_eq a b then ci_prefix p' s' else None
  end.

Definition is_quote (c : char) : bool := ((c =? 34) || (c =? 39))%N.

(** The group and the closing quote: the shortest run of characters
    other than a newline that is followed by a quote. *)
Fixpoint lazy_until_quote (s : str) : option str :=
  match s with
  | [] => None
  | c :: r =>
      if is_quote c then Some []
      else if (c =? newline)%N then None
      else cons c <$> lazy_until_quote r
  end.

(** [src=], the opening quote, the group and the closing quote matched
    at the head of [s]; the result is group 1. *)
Definition src_here (s : str) : option str :=
  match ci_prefix (lit "src=") s with
  | Some (q :: r) => if is_quote q then lazy_until_quote r else None
  | _ => None
  end.

(** The greedy [[^>]+] gives characters back one at a time: of the
    places inside the run of non-[>] characters where [src=...] matches,
    the last one is taken. *)
Fixpoint best_src (s : str) : option str :=
  match s with
  | [] => None
  | c :: r =>
      if (c =? gt_sign)%N then None
      else match best_src r with
           | Some g => Some g
           | None => src_here s
           end
  end.

(** The whole pattern matched at the head of [s]. *)
Definition match_img (s : str) : option str :=
  match s with
  | c :: r =>
      if (c =? lt_sign)%N
      then match ci_prefix (lit "img") r with
           | Some (d :: r') => if (d =? gt_sign)%N then None else best_src r'
           | _ => None
           end
      else None
  | [] => None
  end.

(** [re.search]: the match at the leftmost position that has one;
    the result is [match.group(1)]. *)
Fixpoint search_img (s : str) : option str :=
  match match_img s with
  | Some g => Some g
  | None => match s with
            | [] => None
            | _ :: r => search_img r
            end
  end.

End Re.

(* ===================================================================== *)
(** ** Exceptions *)
(* ===================================================================== *)

Module Exn.

(** The exceptions the program can meet. All of them derive from
    [Exception]; [KeyboardInterrupt] and task cancellation, which do
    not, end the process and are outside the model. *)
Inductive exn : Type :=
| FileNotFoundError
| PermissionError
| OSError
| JSONDecodeError
| UnicodeDecodeError
| ValueError
| KeyError
| NameError (name : string)
| AttributeError (name : string)
| LibraryError.      (* raised inside feedparser or the Telegram client *)

(** [except FileNotFoundError] *)
Definition is_FileNotFoundError (e : exn) : bool :=
  match e with FileNotFoundError => true | _ => false end.

(** [except OSError]: [FileNotFoundError] and [PermissionError] are
    subclasses of [OSError]. *)
Definition is_OSError (e : exn) : bool :=
  match e with
  | FileNotFoundError | PermissionError | OSError => true
  | _ => false
  end.

(** [json.JSONDecodeError] *)
Definition is_JSONDecodeError (e : exn) : bool :=
  match e with JSONDecodeError => true | _ => false end.

(** [except Exception] *)
Definition is_Exception (e : exn) : bool := true.

Inductive outcome (A : Type) : Type :=
| Returns (a : A)
| Raises (e : exn).

Arguments Returns {A} a.
Arguments Raises {A} e.

End Exn.

Import Exn.

(* ===================================================================== *)
(** ** The feed monitor *)
(* ===================================================================== *)

Module Monitor.

(** *** Configuration ([config.py]) *)

Record Config : Type := {
  TELEGRAM_BOT_TOKEN : option str;     (* os.getenv: None when unset *)
  TELEGRAM_CHAT_ID : option str;
  TELEGRAM_TOPIC_ID : option str;
  CHECK_INTERVAL : nat;
  FEEDS_FILE : string;
  HISTORY_FILE : string;
  MAX_HISTORY_ITEMS : nat;
  INCLUDE_DESCRIPTION : bool;
  DISABLE_NOTIFICATION : bool;
  MAX_MESSAGE_LENGTH : nat
}.

(** The values written in [config.py]; the three secrets come from the
    process environment. *)
Definition config_py (token chat_id topic_id : option str) : Config := {|
  TELEGRAM_BOT_TOKEN := token;
  TELEGRAM_CHAT_ID := chat_id;
  TELEGRAM_TOPIC_ID := topic_id;
  CHECK_INTERVAL := 3600;
  FEEDS_FILE := "data/feeds.txt";
  HISTORY_FILE := "data/sent_items.json";
  MAX_HISTORY_ITEMS := 200;
  INCLUDE_DESCRIPTION := false;
  DISABLE_NOTIFICATION := false;
  MAX_MESSAGE_LENGTH := 4096
|}.

(** *** Parsed feeds

    An attribute that [hasattr] may find absent, or a key that
    [dict.get] may miss, is an [option]. *)

Record Media : Type := {
  media_type : option str;
  media_medium : option str;
  media_url : option str
}.

Record Enclosure : Type := {
  enclosure_type : option str;
  enclosure_href : option str
}.

Record Thumbnail : Type := { thumbnail_url : option str }.

Record Content : Type := { content_value : option str }.

Record Entry : Type := {
  attr_id : option str;
  attr_title : option str;
  attr_link : option str;
  attr_description : option str;
  attr_summary : option str;
  attr_media_content : option (list Media);
  attr_enclosures : option (list Enclosure);
  attr_media_thumbnail : option (list Thumbnail);
  attr_content : option (list Content)
}.

(** The result of [feedparser.parse]: [feed.feed.title] and
    [feed.entries]. *)
Record Feed : Type := {
  feed_title_attr : option str;
  entries : list Entry
}.

(** *** History *)

(** [sent_items]: feed URL to the identifiers sent for it, oldest first. *)
Abbreviation Store := (gmap str (list str)).

(** *** The world outside the program *)

(** A file on disk, seen through what [open] does with it. *)
Inductive File (A : Type) : Type :=
| Missing                 (* open(..., 'r') raises FileNotFoundError *)
| Denied                  (* open raises PermissionError *)
| Holds (content : A).

Arguments Missing {A}.
Arguments Denied {A}.
Arguments Holds {A} content.

(** The text of the history file, seen through what [json.load] does
    with it. A JSON text in this file is one that [save_sent_items]
    wrote: an object from feed URLs to lists of identifiers. *)
Inductive HistoryText : Type :=
| Json (s : Store)        (* json.load returns s *)
| NotJson                 (* json.load raises JSONDecodeError *)
| NotUtf8.                (* reading raises UnicodeDecodeError *)

(** Keyword arguments shared by the two Telegram calls; [parse_mode] is
    always Markdown. *)
Record Kwargs : Type := {
  chat_id : option str;
  disable_notification : bool;
  message_thread_id : option Z
}.

Inductive BotCall : Type :=
| send_photo (photo : str) (caption : str) (kwargs : Kwargs)
| send_message (text : str) (disable_web_page_preview : option bool)
    (kwargs : Kwargs).

Inductive WriteOutcome : Type :=
| Written                 (* the new content replaces the old one *)
| Refused                 (* OSError before the file is touched *)
| Torn.                   (* OSError after the file was truncated *)

(** What the program cannot decide: library functions and the answers
    of the network and of the disk. The [nat] is the instant of the
    call, counted in calls, so that two calls with equal arguments may
    be answered differently. *)
Record Env : Type := {
  html_unescape : str -> str;                    (* html.unescape *)
  py_int : str -> option Z;                      (* int(s); None: ValueError *)
  feedparser_parse : nat -> str -> outcome Feed;
  bot_answer : nat -> BotCall -> option exn;     (* None: accepted *)
  disk_write : nat -> WriteOutcome
}.

Inductive level : Type := INFO | WARNING | ERROR.

Inductive message : Type :=
| LoadedFeeds (n : nat)
| FeedFileNotFound
| ErrorLoadingFeeds (e : exn)
| ErrorSendingNotification (e : exn)
| ErrorSendingArticle (image_url : option str) (e : exn)
| ErrorSendingFallbackText (e : exn)
| NoFeedsToCheck
| CheckingFeed (feed_url : str)
| NoEntriesFound (feed_url : str)
| NewEntryFound (title : str)
| ErrorCheckingFeed (feed_url : str) (e : exn)
| StartingMonitoring
| ConfigurationLine (include_description disable_notification : bool)
| MissingEnvironment
| NextCheckIn (seconds : nat).

(** One call of [send_single_article] made by [check_feeds] that came
    back with an answer. This is a record kept for the proofs; the
    program does not read it. *)
Record Delivery : Type := {
  delivery_feed : str;
  delivery_id : str;
  delivery_entry : Entry;
  delivery_ok : bool
}.

Record World : Type := {
  feeds_file : File str;         (* its text, as open(..., 'r') reads it *)
  history_file : File HistoryText;
  sent_items : Store;            (* the dict bound to sent_items in check_feeds *)
  clock : nat;                   (* calls made to the outside so far *)
  slept : nat;                   (* seconds spent in asyncio.sleep *)
  log : list (level * message);  (* oldest first *)
  bot_calls : list (BotCall * option exn);
                                 (* calls to the destination with their answers,
                                    oldest first *)
  deliveries : list Delivery     (* oldest first *)
}.

(** *** Computations: state that survives an exception *)

Definition M (A : Type) : Type := World -> outcome A * World.

Definition ret {A} (a : A) : M A := fun w => (Returns a, w).

Definition raise {A} (e : exn) : M A := fun w => (Raises e, w).

Definition bind {A B} (m : M A) (k : A -> M B) : M B :=
  fun w =>
    match m w with
    | (Returns a, w') => k a w'
    | (Raises e, w') => (Raises e, w')
    end.

(** [try: body / except ...: handler]. The handler answers [None] for
    an exception that no [except] clause of the statement names; an
    exception raised inside a handler is not looked up again in the
    clauses of the same statement. *)
Definition try_except {A} (body : M A) (handler : exn -> option (M A)) : M A :=
  fun w =>
    match body w with
    | (Returns a, w') => (Returns a, w')
    | (Raises e, w') =>
        match handler e with
        | Some h => h w'
        | None => (Raises e, w')
        end
    end.

Definition get : M World := fun w => (Returns w, w).

Definition modify (f : World -> World) : M unit := fun w => (Returns tt, f w).

Declare Scope py_scope.
Delimit Scope py_scope with py.
Notation "x <- m ;; k" := (bind m (fun x => k))
  (at level 100, m at next level, right associativity) : py_scope.
Notation "m ;; k" := (bind m (fun _ => k))
  (at level 100, right associativity) : py_scope.
Open Scope py_scope.

(** [for x in l: body x], left when [body] raises. *)
Fixpoint for_each {A} (l : list A) (body : A -> M unit) : M unit :=
  match l with
  | [] => ret tt
  | x :: r => body x ;; for_each r body
  end.

(** *** Updates of the world *)

Definition set_feeds_file (f : File str) (w : World) : World :=
  {| feeds_file := f; history_file := history_file w;
     sent_items := sent_items w; clock := clock w; slept := slept w;
     log := log w; bot_calls := bot_calls w; deliveries := deliveries w |}.

Definition set_history_file (f : File HistoryText) (w : World) : World :=
  {| feeds_file := feeds_file w; history_file := f;
     sent_items := sent_items w; clock := clock w; slept := slept w;
     log := log w; bot_calls := bot_calls w; deliveries := deliveries w |}.

Definition set_sent_items (s : Store) (w : World) : World :=
  {| feeds_file := feeds_file w; history_file := history_file w;
     sent_items := s; clock := clock w; slept := slept w;
     log := log w; bot_calls := bot_calls w; deliveries := deliveries w |}.

Definition tick (w : World) : World :=
  {| feeds_file := feeds_file w; history_file := history_file w;
     sent_items := sent_items w; clock := S (clock w); slept := slept w;
     log := log w; bot_calls := bot_calls w; deliveries := deliveries w |}.

Definition add_sleep (n : nat) (w : World) : World :=
  {| feeds_file := feeds_file w; history_file := history_file w;
     sent_items := sent_items w; clock := clock w; slept := slept w + n;
     log := log w; bot_calls := bot_calls w; deliveries := deliveries w |}.

Definition add_log (r : level * message) (w : World) : World :=
  {| feeds_file := feeds_file w; history_file := history_file w;
     sent_items := sent_items w; clock := clock w; slept := slept w;
     log := log w ++ [r]; bot_calls := bot_calls w; deliveries := deliveries w |}.

Definition add_bot_call (c : BotCall * option exn) (w : World) : World :=
  {| feeds_file := feeds_file w; history_file := history_file w;
     sent_items := sent_items w; clock := clock w; slept := slept w;
     log := log w; bot_calls := bot_calls w ++ [c]; deliveries := deliveries w |}.

Definition add_delivery (d : Delivery) (w : World) : World :=
  {| feeds_file := feeds_file w; history_file := history_file w;
     sent_items := sent_items w; clock := clock w; slept := slept w;
     log := log w; bot_calls := bot_calls w; deliveries := deliveries w ++ [d] |}.

Definition logger (l : level) (m : message) : M unit := modify (add_log (l, m)).

Definition sleep (seconds : nat) : M unit := modify (add_sleep seconds).

(** *** The functions of [rss_telegram.py] *)

(** The names bound at module level in [rss_telegram.py]: its imports,
    [logger] and its functions. A name that is neither here nor a
    builtin raises [NameError] when it is evaluated. *)
Definition module_globals : list string :=
  ["time"; "json"; "logging"; "feedparser"; "asyncio"; "Bot"; "ParseMode";
   "re"; "html"; "config"; "logger"; "strip_html"; "load_feeds";
   "load_sent_items"; "save_sent_items"; "send_telegram_message";
   "extract_image"; "send_single_article"; "check_feeds"; "main_async";
   "main"]%string.

Definition global (name : string) : M unit :=
  if bool_decide (name ∈ module_globals) then ret tt else raise (NameError name).

Section Program.

Variable config : Config.
Variable env : Env.

(** [strip_html] *)
Definition strip_html (html_content : str) : str :=
  let text := Re.sub_tags html_content in
  let text := html_unescape env text in
  join (lit " ") (split text).

(** [open(config.FEEDS_FILE, 'r')] and reading the text *)
Definition read_feeds_file : M str :=
  fun w =>
    match feeds_file w with
    | Missing => (Raises FileNotFoundError, w)
    | Denied => (Raises PermissionError, w)
    | Holds text => (Returns text, w)
    end.

(** [open(config.HISTORY_FILE, 'r')] and [json.load] *)
Definition read_history_file : M Store :=
  fun w =>
    match history_file w with
    | Missing => (Raises FileNotFoundError, w)
    | Denied => (Raises PermissionError, w)
    | Holds (Json s) => (Returns s, w)
    | Holds NotJson => (Raises JSONDecodeError, w)
    | Holds NotUtf8 => (Raises UnicodeDecodeError, w)
    end.

(** [open(path, 'w')] and writing [content]; [torn] is what is left of
    the file when the write fails after the file was truncated. *)
Definition write_file {A} (file : World -> File A)
    (set_file : File A -> World -> World) (content torn : A) : M unit :=
  fun w =>
    match file w with
    | Denied => (Raises PermissionError, w)
    | _ =>
        match disk_write env (clock w) with
        | Written => (Returns tt, set_file (Holds content) (tick w))
        | Refused => (Raises OSError, tick w)
        | Torn => (Raises OSError, set_file (Holds torn) (tick w))
        end
    end.

Definition feeds_file_header : str :=
  lit "# Add your RSS feeds here, one per line" ++ [newline].

(** [load_feeds] *)
Definition load_feeds : M (list str) :=
  try_except
    (text <- read_feeds_file ;;
     let feeds :=
       strip <$> filter (fun line => truthy (strip line) = true
                           ∧ startswith (lit "#") (strip line) = false)
                        (readlines text) in
     logger INFO (LoadedFeeds (length feeds)) ;;
     ret feeds)
    (fun e =>
       if is_FileNotFoundError e then Some (
         logger WARNING FeedFileNotFound ;;
         try_except
           (global "os" ;;   (* os.makedirs(os.path.dirname(...), exist_ok=True) *)
            ret tt)
           (fun e' => if is_OSError e' then Some (ret tt) else None) ;;
         write_file feeds_file set_feeds_file feeds_file_header [] ;;
         ret [])
       else if is_Exception e then Some (
         logger ERROR (ErrorLoadingFeeds e) ;;
         ret [])
       else None).

(** [load_sent_items] *)
Definition load_sent_items : M Store :=
  try_except read_history_file
    (fun e =>
       if is_FileNotFoundError e || is_JSONDecodeError e
       then Some (ret ∅)
       else None).

(** [save_sent_items] *)
Definition save_sent_items (sent : Store) : M unit :=
  write_file history_file set_history_file (Json sent) NotJson.

(** [await bot.send_photo(...)], [await bot.send_message(...)] *)
Definition bot_call (c : BotCall) : M unit :=
  fun w =>
    let answer := bot_answer env (clock w) c in
    let w' := add_bot_call (c, answer) (tick w) in
    match answer with
    | None => (Returns tt, w')
    | Some e => (Raises e, w')
    end.

(** [if topic_id: kwargs['message_thread_id'] = int(topic_id)]: the
    value stored under [message_thread_id], if any. *)
Definition thread_value (topic_id : option str) : outcome (option Z) :=
  match topic_id with
  | Some t =>
      if truthy t
      then match py_int env t with
           | Some z => Returns (Some z)
           | None => Raises ValueError
           end
      else Returns None
  | None => Returns None
  end.

Definition thread_of (topic_id : option str) : M (option Z) :=
  fun w => (thread_value topic_id, w).

(** [send_telegram_message] *)
Definition send_telegram_message (chat : option str) (text : str)
    (topic_id : option str) : M bool :=
  try_except
    (thread <- thread_of topic_id ;;
     bot_call (send_message text None
                 {| chat_id := chat;
                    disable_notification := DISABLE_NOTIFICATION config;
                    message_thread_id := thread |}) ;;
     ret true)
    (fun e =>
       if is_Exception e then Some (
         logger ERROR (ErrorSendingNotification e) ;;
         ret false)
       else None).

(** [getattr(entry, 'description', '') or getattr(entry, 'summary', '')] *)
Definition description_or_summary (entry : Entry) : str :=
  let d := default [] (attr_description entry) in
  if truthy d then d else default [] (attr_summary entry).

(** [media.get('type', '').startswith('image/') or
    media.get('medium') == 'image'] *)
Definition image_media (media : Media) : bool :=
  startswith (lit "image/") (default [] (media_type media))
  || bool_decide (media_medium media = Some (lit "image")).

(** [enclosure.get('type', '').startswith('image/')] *)
Definition image_enclosure (enclosure : Enclosure) : bool :=
  startswith (lit "image/") (default [] (enclosure_type enclosure)).

(** [extract_image], step 1: the loop over [entry.media_content].
    [Some r] when the loop returns [r], [None] when it runs to its end. *)
Fixpoint image_of_media (l : list Media) : option (option str) :=
  match l with
  | [] => None
  | media :: r =>
      if image_media media then Some (media_url media) else image_of_media r
  end.

(** Step 2: the loop over [entry.enclosures]. *)
Fixpoint image_of_enclosures (l : list Enclosure) : option (option str) :=
  match l with
  | [] => None
  | enclosure :: r =>
      if image_enclosure enclosure
      then Some (enclosure_href enclosure)
      else image_of_enclosures r
  end.

(** Step 5: the loop over [entry.content]. *)
Fixpoint image_of_content (l : list Content) : option (option str) :=
  match l with
  | [] => None
  | content :: r =>
      match Re.search_img (default [] (content_value content)) with
      | Some g => Some (Some g)
      | None => image_of_content r
      end
  end.

(** [extract_image]; the result is [None] for Python's [None]. *)
Definition extract_image (entry : Entry) : option str :=
  match attr_media_content entry ≫= image_of_media with
  | Some r => r
  | None =>
  match attr_enclosures entry ≫= image_of_enclosures with
  | Some r => r
  | None =>
  match attr_media_thumbnail entry with
  | Some (thumbnail :: _) => thumbnail_url thumbnail
  | _ =>
  let description := description_or_summary entry in
  match (if truthy description then Re.search_img description else None) with
  | Some g => Some g
  | None =>
  match attr_content entry ≫= image_of_content with
  | Some r => r
  | None => None
  end end end end end.

Definition max_desc_len : nat := 800.

(** The truncation of [description] in [send_single_article]. *)
Definition truncate_description (description : str) : str :=
  if max_desc_len <? length description      (* len(description) > max_desc_len *)
  then take (max_desc_len - 3) description ++ lit "..."
  else description.

(** [description] before the truncation. *)
Definition cleaned_description (entry : Entry) : str :=
  let raw_desc := description_or_summary entry in
  if INCLUDE_DESCRIPTION config then strip_html raw_desc else [].

Definition article_description (entry : Entry) : str :=
  truncate_description (cleaned_description entry).

(** The three characters that open the message in the source text. *)
Definition bullet : str := [226; 8364; 162]%N.

(** [message_text] of [send_single_article] *)
Definition format_message (entry : Entry) (feed_title : str) : str :=
  let title := default (lit "No title") (attr_title entry) in
  let link := default [] (attr_link entry) in
  let description := article_description entry in
  let message_text :=
    bullet ++ lit " [" ++ title ++ lit "](" ++ link ++ lit ")"
      ++ [newline] ++ lit "_" ++ feed_title ++ lit "_" in
  if truthy description
  then message_text ++ [newline; newline] ++ description
  else message_text.

(** [if image_url:] is false for [None] and for the empty string. *)
Definition usable_image (image_url : option str) : option str :=
  match image_url with
  | Some url => if truthy url then Some url else None
  | None => None
  end.

(** [kwargs] of [send_single_article] *)
Definition kwargs_of (chat : option str) (thread : option Z) : Kwargs :=
  {| chat_id := chat;
     disable_notification := DISABLE_NOTIFICATION config;
     message_thread_id := thread |}.

(** [send_single_article] *)
Definition send_single_article (chat : option str) (entry : Entry)
    (feed_title : str) (topic_id : option str) : M bool :=
  let message_text := format_message entry feed_title in
  let image_url := extract_image entry in
  thread <- thread_of topic_id ;;
  let kwargs := kwargs_of chat thread in
  try_except
    (match usable_image image_url with
     | Some url => bot_call (send_photo url message_text kwargs)
     | None => bot_call (send_message message_text (Some false) kwargs)
     end ;;
     ret true)
    (fun e =>
       if is_Exception e then Some (
         logger ERROR (ErrorSendingArticle image_url e) ;;
         match usable_image image_url with
         | Some _ =>
             try_except
               (bot_call (send_message message_text (Some false) kwargs) ;;
                ret true)
               (fun e2 =>
                  if is_Exception e2 then Some (
                    logger ERROR (ErrorSendingFallbackText e2) ;;
                    ret false)
                  else None)
         | None => ret false
         end)
       else None).

(** [entry.id if hasattr(entry, 'id') else entry.link] *)
Definition entry_id_value (entry : Entry) : outcome str :=
  match attr_id entry with
  | Some i => Returns i
  | None =>
      match attr_link entry with
      | Some l => Returns l
      | None => Raises (AttributeError "link")
      end
  end.

Definition entry_id_of (entry : Entry) : M str :=
  fun w => (entry_id_value entry, w).

(** [sent_items[feed_url]] *)
Definition getitem (feed_url : str) : M (list str) :=
  fun w =>
    match sent_items w !! feed_url with
    | Some l => (Returns l, w)
    | None => (Raises KeyError, w)
    end.

(** [sent_items.setdefault(feed_url, [])] *)
Definition setdefault (feed_url : str) : M unit :=
  modify (fun w =>
    match sent_items w !! feed_url with
    | Some _ => w
    | None => set_sent_items (<[feed_url := []]> (sent_items w)) w
    end).

(** [sent_items[feed_url].append(entry_id)] *)
Definition append_item (feed_url entry_id : str) : M unit :=
  l <- getitem feed_url ;;
  modify (fun w =>
    set_sent_items (<[feed_url := l ++ [entry_id]]> (sent_items w)) w).

(** The loop that fills [new_entries]. *)
Fixpoint identify_new (feed_url : str) (feed_entries new_entries : list Entry)
    : M (list Entry) :=
  match feed_entries with
  | [] => ret new_entries
  | entry :: r =>
      entry_id <- entry_id_of entry ;;
      seen <- getitem feed_url ;;
      identify_new feed_url r
        (if contains entry_id seen then new_entries else new_entries ++ [entry])
  end.

(** The body of the loop over [reversed(new_entries)]. *)
Definition deliver (feed_url feed_title : str) (entry : Entry) : M unit :=
  entry_id <- entry_id_of entry ;;
  logger INFO (NewEntryFound (default (lit "No title") (attr_title entry))) ;;
  success <- send_single_article (TELEGRAM_CHAT_ID config) entry feed_title
               (TELEGRAM_TOPIC_ID config) ;;
  modify (add_delivery {| delivery_feed := feed_url; delivery_id := entry_id;
                          delivery_entry := entry; delivery_ok := success |}) ;;
  if success
  then
    append_item feed_url entry_id ;;
    w <- get ;;
    save_sent_items (sent_items w) ;;
    sleep 2
  else ret tt.

(** The body of the [try] inside the loop over the feeds. *)
Definition check_feed (feed_url : str) : M unit :=
  feed <- (fun w => (feedparser_parse env (clock w) feed_url, tick w)) ;;
  match entries feed with
  | [] => logger WARNING (NoEntriesFound feed_url)
  | _ :: _ =>
      let feed_title := default feed_url (feed_title_attr feed) in
      setdefault feed_url ;;
      new_entries <- identify_new feed_url (entries feed) [] ;;
      for_each (rev new_entries) (deliver feed_url feed_title)
  end.

(** The body of the loop over the feeds. *)
Definition poll_feed (feed_url : str) : M unit :=
  if truthy (strip feed_url)
  then
    logger INFO (CheckingFeed feed_url) ;;
    try_except (check_feed feed_url)
      (fun e =>
         if is_Exception e
         then Some (logger ERROR (ErrorCheckingFeed feed_url e))
         else None)
  else ret tt.

(** [check_feeds] *)
Definition check_feeds : M Store :=
  loaded <- load_sent_items ;;
  modify (set_sent_items loaded) ;;
  feeds <- load_feeds ;;
  match feeds with
  | [] =>
      logger WARNING NoFeedsToCheck ;;
      w <- get ;;
      ret (sent_items w)
  | _ :: _ =>
      for_each feeds poll_feed ;;
      w <- get ;;
      ret (sent_items w)
  end.

Definition startup_text : str :=
  [240; 376; 164; 8211]%N ++ lit " *RSS Monitoring Bot started!*" ++ [newline]
    ++ lit "Active feed monitoring. Configuration loaded from file.".

Definition truthy_opt (s : option str) : bool := truthy (default [] s).

(** The [while True] loop of [main_async], run for [cycles] rounds. *)
Fixpoint poll_loop (cycles : nat) : M unit :=
  match cycles with
  | O => ret tt
  | S n =>
      sent <- check_feeds ;;
      save_sent_items sent ;;
      logger INFO (NextCheckIn (CHECK_INTERVAL config)) ;;
      sleep (CHECK_INTERVAL config) ;;
      poll_loop n
  end.

(** [main_async] *)
Definition main_async (cycles : nat) : M unit :=
  logger INFO StartingMonitoring ;;
  logger INFO (ConfigurationLine (INCLUDE_DESCRIPTION config)
                 (DISABLE_NOTIFICATION config)) ;;
  if negb (truthy_opt (TELEGRAM_BOT_TOKEN config))
     || negb (truthy_opt (TELEGRAM_CHAT_ID config))
  then logger ERROR MissingEnvironment
  else
    send_telegram_message (TELEGRAM_CHAT_ID config) startup_text
      (TELEGRAM_TOPIC_ID config) ;;
    poll_loop cycles.

End Program.

End Monitor.

Import Monitor.

(* ===================================================================== *)
(** ** Sample data *)
(* ===================================================================== *)

Module Samples.

(** A network on which every call is accepted and every write lands;
    [html.unescape] is taken on text without entities and [int] on
    decimal digits. *)
Fixpoint digits_value (acc : Z) (s : str) : option Z :=
  match s with
  | [] => Some acc
  | c :: r =>
      if ((48 <=? c) && (c <=? 57))%N
      then digits_value (10 * acc + Z.of_N (c - 48)) r
      else None
  end.

Definition int_of_digits (s : str) : option Z :=
  match s with [] => None | _ => digits_value 0 s end.

Definition calm (parse : nat -> str -> outcome Feed) : Env := {|
  html_unescape := fun s => s;
  py_int := int_of_digits;
  feedparser_parse := parse;
  bot_answer := fun _ _ => None;
  disk_write := fun _ => Written
|}.

Definition offline : Env := calm (fun _ _ => Raises LibraryError).

Definition cfg : Config := config_py (Some (lit "token")) (Some (lit "chat")) None.

(** A destination that refuses every photo and accepts every text. *)
Definition no_photo_env : Env := {|
  html_unescape := fun s => s;
  py_int := int_of_digits;
  feedparser_parse := fun _ _ => Raises LibraryError;
  bot_answer := fun _ c =>
    match c with
    | send_photo _ _ _ => Some LibraryError
    | send_message _ _ _ => None
    end;
  disk_write := fun _ => Written
|}.

(** The same configuration with the description switched on. *)
Definition cfg_description : Config := {|
  TELEGRAM_BOT_TOKEN := Some (lit "token");
  TELEGRAM_CHAT_ID := Some (lit "chat");
  TELEGRAM_TOPIC_ID := None;
  CHECK_INTERVAL := 3600;
  FEEDS_FILE := "data/feeds.txt";
  HISTORY_FILE := "data/sent_items.json";
  MAX_HISTORY_ITEMS := 200;
  INCLUDE_DESCRIPTION := true;
  DISABLE_NOTIFICATION := false;
  MAX_MESSAGE_LENGTH := 4096
|}.

(** An entry with the given identifier and nothing else but a title. *)
Definition article (ident title : str) : Entry := {|
  attr_id := Some ident;
  attr_title := Some title;
  attr_link := None;
  attr_description := None;
  attr_summary := None;
  attr_media_content := None;
  attr_enclosures := None;
  attr_media_thumbnail := None;
  attr_content := None
|}.

Definition with_description (e : Entry) (d : str) : Entry := {|
  attr_id := attr_id e;
  attr_title := attr_title e;
  attr_link := attr_link e;
  attr_description := Some d;
  attr_summary := attr_summary e;
  attr_media_content := attr_media_content e;
  attr_enclosures := attr_enclosures e;
  attr_media_thumbnail := attr_media_thumbnail e;
  attr_content := attr_content e
|}.

Definition E1 : Entry := article (lit "e1") (lit "first").
Definition E2 : Entry := article (lit "e2") (lit "second").
Definition E3 : Entry := article (lit "e3") (lit "third").

Definition feed_url : str := lit "http://example.org/rss".

(** The feed of the ordering scenario: newest first. *)
Definition three_feed : Feed :=
  {| feed_title_attr := Some (lit "Example"); entries := [E3; E2; E1] |}.

Definition three_feed_env : Env := calm (fun _ _ => Returns three_feed).

(** [n] entries with pairwise different identifiers, newest first. *)
Fixpoint numbered (n : nat) : list Entry :=
  match n with
  | O => []
  | S k => article (repeat 97%N (S k)) (lit "item") :: numbered k
  end.

Definition long_feed (n : nat) : Feed :=
  {| feed_title_attr := Some (lit "Example"); entries := numbered n |}.

Definition long_feed_env (n : nat) : Env := calm (fun _ _ => Returns (long_feed n)).

(** A fresh installation: one feed in the list, no history yet. *)
Definition fresh_world : World := {|
  feeds_file := Holds (feed_url ++ [newline]);
  history_file := Missing;
  sent_items := ∅;
  clock := 0;
  slept := 0;
  log := [];
  bot_calls := [];
  deliveries := []
|}.

(** The same installation after [e2] was sent in an earlier run. *)
Definition seen_store : Store := {[ feed_url := [lit "e2"] ]}.

Definition seen_world : World := {|
  feeds_file := Holds (feed_url ++ [newline]);
  history_file := Holds (Json seen_store);
  sent_items := ∅;
  clock := 0;
  slept := 0;
  log := [];
  bot_calls := [];
  deliveries := []
|}.

(** A feed file with a comment, blank lines and two feeds. *)
Definition commented_world : World := {|
  feeds_file := Holds (lit "# my feeds" ++ [newline] ++ [newline]
                         ++ lit "  http://a.example/rss  " ++ [newline]
                         ++ lit "#http://off.example/rss" ++ [newline]
                         ++ lit "http://b.example/rss");
  history_file := Missing;
  sent_items := ∅;
  clock := 0;
  slept := 0;
  log := [];
  bot_calls := [];
  deliveries := []
|}.

(** A feed file that holds nothing but a comment. *)
Definition idle_world : World := {|
  feeds_file := Holds (lit "# nothing yet" ++ [newline]);
  history_file := Holds (Json seen_store);
  sent_items := ∅;
  clock := 0;
  slept := 0;
  log := [];
  bot_calls := [];
  deliveries := []
|}.

(** A configuration whose topic identifier is not a number. *)
Definition cfg_bad_topic : Config :=
  config_py (Some (lit "token")) (Some (lit "chat")) (Some (lit "general")).

(** A configuration without the bot token. *)
Definition cfg_no_token : Config := config_py None (Some (lit "chat")) None.

(** An entry with neither identifier nor link. *)
Definition anonymous_entry : Entry := {|
  attr_id := None;
  attr_title := Some (lit "anonymous");
  attr_link := None;
  attr_description := None;
  attr_summary := None;
  attr_media_content := None;
  attr_enclosures := None;
  attr_media_thumbnail := None;
  attr_content := None
|}.

(** A feed whose oldest entry has neither identifier nor link. *)
Definition anonymous_feed_env : Env :=
  calm (fun _ _ => Returns {| feed_title_attr := None;
                              entries := [E3; E2; anonymous_entry] |}).

(** A destination that refuses everything. *)
Definition deaf_env : Env := {|
  html_unescape := fun s => s;
  py_int := int_of_digits;
  feedparser_parse := fun _ _ => Returns three_feed;
  bot_answer := fun _ _ => Some LibraryError;
  disk_write := fun _ => Written
|}.

(** An entry whose description holds an image tag with an empty [src]. *)
Definition empty_src_entry : Entry :=
  with_description (article (lit "e0") (lit "picture")) (lit "<img src=''>").

(** An entry with a description of 1000 characters. *)
Definition long_description_entry : Entry :=
  with_description (article (lit "e5") (lit "long")) (repeat 97%N 1000).

(** A history file whose bytes are not UTF-8 text. *)
Definition garbled_world : World := {|
  feeds_file := Holds (feed_url ++ [newline]);
  history_file := Holds NotUtf8;
  sent_items := ∅;
  clock := 0;
  slept := 0;
  log := [];
  bot_calls := [];
  deliveries := []
|}.

(** An entry whose title alone is longer than a Telegram message. *)
Definition long_title_entry : Entry :=
  article (lit "e9") (repeat 97%N 4100).

(** An entry with a thumbnail and an image tag in its description. *)
Definition thumbnail_entry : Entry := {|
  attr_id := Some (lit "e4");
  attr_title := Some (lit "fourth");
  attr_link := Some (lit "http://example.org/4");
  attr_description := Some (lit "<p><IMG class='c' src='in-text.png'></p>");
  attr_summary := None;
  attr_media_content :=
    Some [ {| media_type := Some (lit "video/mp4"); media_medium := None;
              media_url := Some (lit "clip.mp4") |} ];
  attr_enclosures := Some [];
  attr_media_thumbnail := Some [ {| thumbnail_url := Some (lit "thumb.png") |} ];
  attr_content := None
|}.

End Samples.

(* ===================================================================== *)
(** ** Vocabulary of the statements *)
(* ===================================================================== *)

(** The record of a feed in a store; a feed the store does not know has
    the empty record. *)
Definition history (s : Store) (feed : str) : list str := default [] (s !! feed).

(** The calls that [m] makes to the destination from the world [w]. *)
Definition new_bot_calls {A} (m : M A) (w : World) : list (BotCall * option exn) :=
  drop (length (bot_calls w)) (bot_calls (snd (m w))).

(** The identifiers that the successful deliveries of [ds] to [feed]
    carry, in order. *)
Definition recorded (feed : str) (ds : list Delivery) : list str :=
  delivery_id <$> filter (fun d => delivery_feed d = feed ∧ delivery_ok d = true) ds.

(** A delivery of an entry under its own identifier, which the store
    [s] does not hold for the feed. *)
Definition unseen (s : Store) (d : Delivery) : Prop :=
  entry_id_value (delivery_entry d) = Returns (delivery_id d)
  ∧ delivery_id d ∉ history s (delivery_feed d).

(** An entry that the loop over [feed.entries] keeps: its identifier is
    not among [seen]. *)
Definition fresh_entry (seen : list str) (entry : Entry) : bool :=
  match entry_id_value entry with
  | Returns i => negb (contains i seen)
  | Raises _ => false
  end.

(** *** Reasoning about computations *)

(** [keeps I m]: [m] preserves [I] whatever its outcome. *)
Definition keeps {A} (I : World -> Prop) (m : M A) : Prop :=
  forall w, I w -> I (snd (m w)).

(** The part of the world that the history claims speak about. *)
Definition view (w : World) : Store * list Delivery * File HistoryText :=
  (sent_items w, deliveries w, history_file w).

(** [stable m]: [m] leaves the store, the deliveries and the history
    file as they are. *)
Definition stable {A} (m : M A) : Prop := forall w, view (snd (m w)) = view w.

(** [pure m]: [m] leaves the whole world as it is. *)
Definition pure {A} (m : M A) : Prop := forall w, snd (m w) = w.

(** *** The invariant of a poll cycle *)

(** [cycle_inv base ds0 hf0 w ds]: since the cycle loaded the store
    [base], in a world that held the deliveries [ds0] and the history
    file [hf0], the deliveries [ds] were made, and [w] is the world
    they lead to. *)
Record cycle_inv (base : Store) (ds0 : list Delivery) (hf0 : File HistoryText)
    (w : World) (ds : list Delivery) : Prop := {
  inv_deliveries : deliveries w = ds0 ++ ds;
  inv_unseen : Forall (unseen base) ds;
  inv_history : forall feed,
    history (sent_items w) feed = history base feed ++ recorded feed ds;
  inv_keys : forall feed, is_Some (base !! feed) -> is_Some (sent_items w !! feed);
  inv_file : Forall (fun d => delivery_ok d = false) ds -> history_file w = hf0
}.

Definition in_cycle (base : Store) (ds0 : list Delivery) (hf0 : File HistoryText)
    (w : World) : Prop :=
  exists ds, cycle_inv base ds0 hf0 w ds.

(** *** The calls of [send_single_article] *)

(** The two calls of [send_single_article]: both carry the same
    [message_text]. *)
Definition photo_call config env chat entry feed_title thread (url : str) : BotCall :=
  send_photo url (format_message config env entry feed_title)
    (kwargs_of config chat thread).

Definition text_call config env chat entry feed_title thread : BotCall :=
  send_message (format_message config env entry feed_title) (Some false)
    (kwargs_of config chat thread).

Definition accepted (answer : option exn) : bool :=
  match answer with None => true | Some _ => false end.

(** *** The places an image is taken from *)

(** [x] is the first element of [l] that [P] holds of. *)
Definition first_such {A} (P : A -> bool) (l : list A) (x : A) : Prop :=
  exists l1 l2, l = l1 ++ x :: l2 ∧ P x = true ∧ Forall (fun y => P y = false) l1.

(** The attribute is absent, or [P] holds of none of its elements. *)
Definition none_such {A} (P : A -> bool) (o : option (list A)) : Prop :=
  forall l, o = Some l -> Forall (fun y => P y = false) l.

Definition has_img_src (s : str) : bool :=
  match Re.search_img s with Some _ => true | None => false end.

Definition content_has_image (c : Content) : bool :=
  has_img_src (default [] (content_value c)).

Definition no_thumbnail (entry : Entry) : Prop :=
  attr_media_thumbnail entry = None ∨ attr_media_thumbnail entry = Some [].

(** *** Image tags *)

(** [x] spells [p] up to the case of its letters. *)
Definition ci_match (p x : str) : Prop :=
  Forall2 (fun a b => Re.ci_eq a b = true) p x.

(** A character the group of the pattern may hold. *)
Definition in_group (c : char) : Prop := Re.is_quote c = false ∧ c ≠ newline.

(** [src_attr s g]: [s] starts with [src=], a quote, [g] and a quote. *)
Definition src_attr (s g : str) : Prop :=
  exists src q1 q2 post,
    s = src ++ q1 :: g ++ q2 :: post
    ∧ ci_match (lit "src=") src
    ∧ Re.is_quote q1 = true ∧ Re.is_quote q2 = true
    ∧ Forall in_group g.

(** [img_tag s g]: [s] starts with an image tag whose source is [g]:
    [<img], at least one character and no [>], then [src_attr]. *)
Definition img_tag (s g : str) : Prop :=
  exists img mid rest,
    s = Re.lt_sign :: img ++ mid ++ rest
    ∧ ci_match (lit "img") img
    ∧ mid ≠ [] ∧ Forall (fun c => c ≠ Re.gt_sign) mid
    ∧ src_attr rest g.

(** *** Words and whitespace *)

(** A word of [str.split()]: at least one character, none of them
    whitespace. *)
Definition word (w : str) : Prop :=
  w ≠ [] ∧ Forall (fun c => isspace c = false) w.

(** *** What a computation leaves alone *)

(** [preserves f m]: [m] leaves the observation [f] of the world as it
    is, whatever its outcome. *)
Definition preserves {X A} (f : World -> X) (m : M A) : Prop :=
  forall w, f (snd (m w)) = f w.

(** The feeds for which [check_feeds] logged that it checks them, in
    order. *)
Definition checked_feeds (w : World) : list str :=
  omap (fun r => match r with
                 | (INFO, CheckingFeed feed) => Some feed
                 | _ => None
                 end) (log w).

(** The calls and the deliveries of a world. *)
Definition traffic (w : World) : list (BotCall * option exn) * list Delivery :=
  (bot_calls w, deliveries w).

(* ===================================================================== *)
(** ** Lemmas on computations *)
(* ===================================================================== *)

Section Computations.

Context {A B : Type}.

Lemma keeps_bind (I : World -> Prop) (m : M A) (k : A -> M B) :
  keeps I m -> (forall a, keeps I (k a)) -> keeps I (bind m k).
Proof.
  intros Hm Hk w Hw. unfold bind.
  specialize (Hm w Hw). destruct (m w) as [[a|e] w1]; simpl in *.
  - apply Hk, Hm.
  - exact Hm.
Qed.

Lemma stable_bind (m : M A) (k : A -> M B) :
  stable m -> (forall a, stable (k a)) -> stable (bind m k).
Proof.
  intros Hm Hk w. unfold bind.
  specialize (Hm w). destruct (m w) as [[a|e] w1]; simpl in *.
  - rewrite Hk. exact Hm.
  - exact Hm.
Qed.

End Computations.

Lemma stable_ret {A} (a : A) : stable (ret a).
Proof. intros w. reflexivity. Qed.

Lemma stable_raise {A} (e : exn) : stable (@raise A e).
Proof. intros w. reflexivity. Qed.

Lemma stable_try_except {A} (body : M A) handler :
  stable body ->
  (forall e, match handler e with Some h => stable h | None => True end) ->
  stable (try_except body handler).
Proof.
  intros Hb Hh w. unfold try_except.
  specialize (Hb w). destruct (body w) as [[a|e] w1]; simpl in *; [exact Hb|].
  specialize (Hh e). destruct (handler e) as [h|]; simpl; [|exact Hb].
  rewrite Hh. exact Hb.
Qed.

Lemma keeps_try_except {A} (I : World -> Prop) (body : M A) handler :
  keeps I body ->
  (forall e, match handler e with Some h => keeps I h | None => True end) ->
  keeps I (try_except body handler).
Proof.
  intros Hb Hh w Hw. unfold try_except.
  specialize (Hb w Hw). destruct (body w) as [[a|e] w1]; simpl in *; [exact Hb|].
  specialize (Hh e). destruct (handler e) as [h|]; simpl; [|exact Hb].
  apply Hh, Hb.
Qed.

Lemma stable_for_each {A} (l : list A) (body : A -> M unit) :
  (forall x, stable (body x)) -> stable (for_each l body).
Proof.
  intros Hb. induction l as [|x l IH]; simpl.
  - apply stable_ret.
  - apply stable_bind; auto.
Qed.

Lemma keeps_for_each {A} (I : World -> Prop) (l : list A) (body : A -> M unit) :
  (forall x, x ∈ l -> keeps I (body x)) -> keeps I (for_each l body).
Proof.
  induction l as [|x l IH]; intros Hb; simpl.
  - intros w Hw. exact Hw.
  - apply keeps_bind.
    + apply Hb. left.
    + intros _. apply IH. intros y Hy. apply Hb. right. exact Hy.
Qed.

Lemma stable_modify (f : World -> World) :
  (forall w, view (f w) = view w) -> stable (modify f).
Proof. intros Hf w. apply Hf. Qed.

Lemma stable_logger l m : stable (logger l m).
Proof. apply stable_modify. reflexivity. Qed.

Lemma stable_sleep n : stable (sleep n).
Proof. apply stable_modify. reflexivity. Qed.

Lemma stable_get : stable get.
Proof. intros w. reflexivity. Qed.

Lemma stable_global name : stable (global name).
Proof. unfold global. case_bool_decide; [apply stable_ret | apply stable_raise]. Qed.

Lemma stable_read_feeds_file : stable read_feeds_file.
Proof. intros w. unfold read_feeds_file. destruct (feeds_file w); reflexivity. Qed.

Lemma stable_read_history_file : stable read_history_file.
Proof.
  intros w. unfold read_history_file.
  destruct (history_file w) as [| |[]]; reflexivity.
Qed.

Lemma stable_write_feeds env content torn :
  stable (write_file env feeds_file set_feeds_file content torn).
Proof.
  intros w. unfold write_file.
  destruct (feeds_file w); try reflexivity; destruct (disk_write env (clock w)); reflexivity.
Qed.

Lemma stable_bot_call env c : stable (bot_call env c).
Proof.
  intros w. unfold bot_call. destruct (bot_answer env (clock w) c); reflexivity.
Qed.

Lemma stable_thread_of env topic : stable (thread_of env topic).
Proof. intros w. reflexivity. Qed.

Lemma stable_entry_id_of entry : stable (entry_id_of entry).
Proof. intros w. reflexivity. Qed.

Lemma stable_getitem feed : stable (getitem feed).
Proof. intros w. unfold getitem. destruct (sent_items w !! feed); reflexivity. Qed.

Create HintDb stable discriminated.

#[local] Hint Resolve stable_ret stable_raise stable_logger stable_sleep stable_get
  stable_global stable_read_feeds_file stable_read_history_file
  stable_write_feeds stable_bot_call stable_thread_of stable_entry_id_of
  stable_getitem : stable.

(** Breaks a goal [stable m] along the structure of [m]. *)
Ltac stable_step :=
  match goal with
  | |- stable (bind _ _) => apply stable_bind
  | |- stable (try_except _ _) => apply stable_try_except
  | |- stable (for_each _ _) => apply stable_for_each
  | |- stable (match ?x with _ => _ end) => destruct x
  | |- stable (if ?b then _ else _) => destruct b
  | |- match (if ?b then _ else _) with _ => _ end => destruct b
  | |- forall _, _ => intro
  | |- True => exact I
  end.

Ltac solve_stable := repeat stable_step; auto with stable.

Lemma stable_load_feeds env : stable (load_feeds env).
Proof. unfold load_feeds. solve_stable. Qed.

Lemma stable_send_telegram_message config env chat text topic :
  stable (send_telegram_message config env chat text topic).
Proof. unfold send_telegram_message. solve_stable. Qed.

Lemma stable_send_single_article config env chat entry feed_title topic :
  stable (send_single_article config env chat entry feed_title topic).
Proof. unfold send_single_article. solve_stable. Qed.

(* ===================================================================== *)
(** ** One delivery *)
(* ===================================================================== *)

Lemma view_eq w w' :
  view w' = view w ->
  sent_items w' = sent_items w ∧ deliveries w' = deliveries w
  ∧ history_file w' = history_file w.
Proof. unfold view. intros H. injection H as -> -> ->. auto. Qed.

(** [send_single_article] catches what the destination raises; only the
    conversion of the topic identifier can make it raise. *)
Lemma send_single_article_raises config env chat entry feed_title topic w e :
  fst (send_single_article config env chat entry feed_title topic w) = Raises e ->
  e = ValueError.
Proof.
  unfold send_single_article, bind, thread_of, thread_value.
  destruct topic as [t|]; [destruct (truthy t); [destruct (py_int env t)|]|];
    simpl; try (intros [= <-]; reflexivity);
    unfold try_except, bind, bot_call, logger, modify, ret;
    destruct (usable_image (extract_image entry)); simpl;
    repeat match goal with
    | |- context [bot_answer ?x ?y ?z] => destruct (bot_answer x y z); simpl
    end; discriminate.
Qed.

(** What a write leaves in the history file. *)
Lemma save_sent_items_cases env sent w :
  let r := save_sent_items env sent w in
  sent_items (snd r) = sent_items w ∧ deliveries (snd r) = deliveries w
  ∧ (history_file (snd r) = history_file w
     ∨ history_file (snd r) = Holds (Json sent)
     ∨ history_file (snd r) = Holds NotJson)
  ∧ (fst r = Returns tt -> history_file (snd r) = Holds (Json sent)).
Proof.
  unfold save_sent_items, write_file.
  destruct (history_file w) eqn:Hf; simpl;
    try destruct (disk_write env (clock w)); simpl; rewrite ?Hf;
    repeat split; auto; discriminate.
Qed.

(** The three ways through the body of the delivery loop: the call of
    [send_single_article] raises and nothing is recorded; it answers
    False and only the attempt is noted; it answers True, the
    identifier is appended and the store is written. *)
Lemma deliver_cases config env feed feed_title entry i l w :
  entry_id_value entry = Returns i ->
  sent_items w !! feed = Some l ->
  let r := deliver config env feed feed_title entry w in
  let d ok := {| delivery_feed := feed; delivery_id := i;
                 delivery_entry := entry; delivery_ok := ok |} in
  (view (snd r) = view w ∧ fst r = Raises ValueError)
  ∨ (sent_items (snd r) = sent_items w
     ∧ deliveries (snd r) = deliveries w ++ [d false]
     ∧ history_file (snd r) = history_file w
     ∧ fst r = Returns tt)
  ∨ (sent_items (snd r) = <[feed := l ++ [i]]> (sent_items w)
     ∧ deliveries (snd r) = deliveries w ++ [d true]
     ∧ (fst r = Returns tt ->
        history_file (snd r) = Holds (Json (<[feed := l ++ [i]]> (sent_items w))))).
Proof.
  intros Hid Hl r d. subst r.
  unfold deliver, bind, entry_id_of, logger, modify. rewrite Hid.
  set (w1 := add_log _ w).
  pose proof (stable_send_single_article config env (TELEGRAM_CHAT_ID config)
                entry feed_title (TELEGRAM_TOPIC_ID config) w1) as Hv.
  pose proof (send_single_article_raises config env (TELEGRAM_CHAT_ID config)
                entry feed_title (TELEGRAM_TOPIC_ID config) w1) as Hr.
  destruct (send_single_article _ _ _ _ _ _ w1) as [[ok|e] w2] eqn:Hs;
    simpl in Hv; apply view_eq in Hv; destruct Hv as (Hs2 & Hd2 & Hf2);
    simpl in Hs2, Hd2, Hf2.
  - destruct ok.
    + right; right.
      unfold append_item, bind, getitem, modify, get. simpl.
      rewrite Hs2, Hl. simpl.
      set (w4 := set_sent_items _ _).
      pose proof (save_sent_items_cases env (<[feed:=l ++ [i]]> (sent_items w2)) w4)
        as (Hs5 & Hd5 & _ & Hf5).
      destruct (save_sent_items env _ w4) as [[[]|e] w5] eqn:Hsave; simpl in *.
      * rewrite Hs5, Hd5, Hd2, Hs2. repeat split; auto.
        intros _. rewrite Hf5 by reflexivity. rewrite Hs2. reflexivity.
      * rewrite Hs5, Hd5, Hd2, Hs2. repeat split; auto. discriminate.
    + right; left. simpl. rewrite Hs2, Hd2, Hf2. auto.
  - left. simpl. unfold view. rewrite Hs2, Hd2, Hf2. split; [reflexivity|].
    f_equal. apply Hr. reflexivity.
Qed.

(* ===================================================================== *)
(** ** The new entries of a feed *)
(* ===================================================================== *)

Lemma identify_new_pure feed es acc : pure (identify_new feed es acc).
Proof.
  revert acc. induction es as [|e es IH]; intros acc w; simpl; [reflexivity|].
  unfold bind, entry_id_of, getitem.
  destruct (entry_id_value e); simpl; [|reflexivity].
  destruct (sent_items w !! feed); simpl; [|reflexivity].
  apply IH.
Qed.

(** When the loop comes to its end, [new_entries] holds the entries
    whose identifier the record of the feed lacks, in feed order. *)
Lemma identify_new_returns feed es acc w l r :
  sent_items w !! feed = Some l ->
  fst (identify_new feed es acc w) = Returns r ->
  r = acc ++ filter (fun e => fresh_entry l e = true) es.
Proof.
  intros Hl. revert acc. induction es as [|e es IH]; intros acc; simpl.
  - intros [= <-]. rewrite app_nil_r. reflexivity.
  - unfold bind, entry_id_of, getitem. rewrite Hl.
    destruct (entry_id_value e) as [i|x] eqn:Hi; simpl; [|discriminate].
    intros H. apply IH in H. subst r.
    assert (Hf : fresh_entry l e = negb (contains i l))
      by (unfold fresh_entry; rewrite Hi; reflexivity).
    rewrite filter_cons. case_decide as Hd; rewrite Hf in Hd;
      destruct (contains i l); simpl in *; try discriminate; try (exfalso; auto; fail).
    + rewrite <- app_assoc. reflexivity.
    + reflexivity.
Qed.


Lemma fresh_entry_not_seen l e i :
  fresh_entry l e = true -> entry_id_value e = Returns i -> i ∉ l.
Proof.
  unfold fresh_entry, contains. intros H Hi. rewrite Hi in H.
  apply negb_true_iff, bool_decide_eq_false in H. exact H.
Qed.

(* ===================================================================== *)
(** ** The invariant of a poll cycle *)
(* ===================================================================== *)

Lemma recorded_app feed ds1 ds2 :
  recorded feed (ds1 ++ ds2) = recorded feed ds1 ++ recorded feed ds2.
Proof. unfold recorded. rewrite filter_app, fmap_app. reflexivity. Qed.

Lemma recorded_failed feed d :
  delivery_ok d = false -> recorded feed [d] = [].
Proof.
  intros H. unfold recorded. rewrite filter_cons, filter_nil.
  case_decide as Hd; [|reflexivity]. destruct Hd as [_ Hd]. congruence.
Qed.

Lemma recorded_other feed d :
  delivery_feed d ≠ feed -> recorded feed [d] = [].
Proof.
  intros H. unfold recorded. rewrite filter_cons, filter_nil.
  case_decide as Hd; [|reflexivity]. destruct Hd as [Hd _]. congruence.
Qed.

Lemma recorded_ok feed d :
  delivery_feed d = feed -> delivery_ok d = true -> recorded feed [d] = [delivery_id d].
Proof.
  intros H1 H2. unfold recorded. rewrite filter_cons, filter_nil.
  case_decide as Hd; [reflexivity|]. exfalso. apply Hd. auto.
Qed.

Lemma in_cycle_view base ds0 hf0 w w' :
  view w' = view w -> in_cycle base ds0 hf0 w -> in_cycle base ds0 hf0 w'.
Proof.
  intros Hv [ds [H1 H2 H3 H4 H5]]. apply view_eq in Hv as (Hs & Hd & Hf).
  exists ds. split; rewrite ?Hs, ?Hd, ?Hf; assumption.
Qed.

Lemma in_cycle_stable {A} base ds0 hf0 (m : M A) :
  stable m -> keeps (in_cycle base ds0 hf0) m.
Proof. intros Hm w Hw. eapply in_cycle_view; [apply Hm | exact Hw]. Qed.

Lemma history_insert (s : Store) feed l feed' :
  history (<[feed := l]> s) feed' = if decide (feed = feed') then l else history s feed'.
Proof.
  unfold history. rewrite lookup_insert. case_decide; reflexivity.
Qed.

Lemma in_cycle_start (loaded : Store) w :
  in_cycle loaded (deliveries w) (history_file w) (set_sent_items loaded w).
Proof.
  exists []. split; simpl; auto.
  - rewrite app_nil_r. reflexivity.
  - intros feed. rewrite app_nil_r. reflexivity.
Qed.

Lemma in_cycle_setdefault base ds0 hf0 feed :
  keeps (in_cycle base ds0 hf0) (setdefault feed).
Proof.
  intros w [ds [H1 H2 H3 H4 H5]]. unfold setdefault, modify. simpl.
  destruct (sent_items w !! feed) as [l|] eqn:Hl; [exists ds; split; assumption|].
  exists ds. split; simpl; auto.
  - intros feed'. rewrite history_insert. case_decide as Hd; [|apply H3].
    subst feed'. rewrite <- H3. unfold history. rewrite Hl. reflexivity.
  - intros feed' Hb. rewrite lookup_insert. case_decide; [eauto|apply H4, Hb].
Qed.

Lemma setdefault_present feed w :
  is_Some (sent_items (snd (setdefault feed w)) !! feed).
Proof.
  unfold setdefault, modify. simpl.
  destruct (sent_items w !! feed) as [l|] eqn:Hl; simpl.
  - rewrite Hl. eauto.
  - rewrite lookup_insert_eq. eauto.
Qed.


Lemma fresh_entry_prefix l1 l2 e :
  fresh_entry (l1 ++ l2) e = true -> fresh_entry l1 e = true.
Proof.
  unfold fresh_entry, contains. destruct (entry_id_value e) as [i|]; [|auto].
  rewrite !negb_true_iff, !bool_decide_eq_false. set_solver.
Qed.

Lemma fresh_entry_id l e :
  fresh_entry l e = true -> exists i, entry_id_value e = Returns i ∧ i ∉ l.
Proof.
  intros H. unfold fresh_entry in H.
  destruct (entry_id_value e) as [i|] eqn:Hi; [|discriminate].
  exists i. split; [reflexivity|].
  eapply fresh_entry_not_seen; [|exact Hi]. unfold fresh_entry. rewrite Hi. exact H.
Qed.

(** The invariant through one delivery of an entry whose identifier
    the loaded store lacks. *)
Lemma in_cycle_deliver base ds0 hf0 config env feed feed_title entry w :
  in_cycle base ds0 hf0 w ->
  is_Some (sent_items w !! feed) ->
  fresh_entry (history base feed) entry = true ->
  in_cycle base ds0 hf0 (snd (deliver config env feed feed_title entry w))
  ∧ is_Some (sent_items (snd (deliver config env feed feed_title entry w)) !! feed).
Proof.
  intros [ds [H1 H2 H3 H4 H5]] [l Hl] Hfresh.
  apply fresh_entry_id in Hfresh as (i & Hi & Hnew).
  pose proof (deliver_cases config env feed feed_title entry i l w Hi Hl) as Hc.
  simpl in Hc.
  destruct Hc as [[Hv _] | [(Hs & Hd & Hf & _) | (Hs & Hd & _)]].
  - apply view_eq in Hv as (Hs & Hd & Hf). split.
    + exists ds. split; rewrite ?Hs, ?Hd, ?Hf; assumption.
    + rewrite Hs, Hl. eauto.
  - split; [|rewrite Hs, Hl; eauto].
    eexists (ds ++ [_]). split; rewrite ?Hs, ?Hd.
    + rewrite H1, <- app_assoc. reflexivity.
    + apply Forall_app. split; [exact H2|]. apply Forall_singleton.
      split; [exact Hi | exact Hnew].
    + intros feed'. rewrite recorded_app, recorded_failed by reflexivity.
      rewrite app_nil_r. apply H3.
    + exact H4.
    + intros Hall. apply Forall_app in Hall as [Hall _]. rewrite Hf. auto.
  - split; [|rewrite Hs, lookup_insert_eq; eauto].
    eexists (ds ++ [_]). split; rewrite ?Hs, ?Hd.
    + rewrite H1, <- app_assoc. reflexivity.
    + apply Forall_app. split; [exact H2|]. apply Forall_singleton.
      split; [exact Hi | exact Hnew].
    + intros feed'. rewrite recorded_app, history_insert. case_decide as Hd'.
      * subst feed'. rewrite recorded_ok by reflexivity. simpl.
        rewrite app_assoc. f_equal. rewrite <- H3. unfold history. rewrite Hl.
        reflexivity.
      * rewrite recorded_other by exact Hd'. rewrite app_nil_r. apply H3.
    + intros feed' Hb. rewrite lookup_insert. case_decide; [eauto|apply H4, Hb].
    + intros Hall. apply Forall_app in Hall as [_ Hall].
      apply Forall_inv in Hall. simpl in Hall. discriminate.
Qed.

Lemma in_cycle_deliver_loop base ds0 hf0 config env feed feed_title l w :
  in_cycle base ds0 hf0 w ->
  is_Some (sent_items w !! feed) ->
  Forall (fun e => fresh_entry (history base feed) e = true) l ->
  in_cycle base ds0 hf0 (snd (for_each l (deliver config env feed feed_title) w)).
Proof.
  intros Hw Hl Hall. revert w Hw Hl.
  induction Hall as [|e l He _ IH]; intros w Hw Hl; simpl; [exact Hw|].
  unfold bind.
  destruct (in_cycle_deliver base ds0 hf0 config env feed feed_title e w Hw Hl He)
    as [Hw' Hl'].
  destruct (deliver config env feed feed_title e w) as [[[]|x] w']; simpl in *.
  - apply IH; assumption.
  - exact Hw'.
Qed.

Lemma in_cycle_check_feed base ds0 hf0 config env feed :
  keeps (in_cycle base ds0 hf0) (check_feed config env feed).
Proof.
  intros w Hw. unfold check_feed, bind.
  assert (Hw1 : in_cycle base ds0 hf0 (tick w))
    by (eapply in_cycle_view; [|exact Hw]; reflexivity).
  destruct (feedparser_parse env (clock w) feed) as [f|x]; cbv beta iota;
    [|exact Hw1].
  destruct (entries f) as [|e0 es] eqn:He.
  - eapply in_cycle_view; [|exact Hw1]. reflexivity.
  - pose proof (in_cycle_setdefault base ds0 hf0 feed (tick w) Hw1) as Hw2.
    pose proof (setdefault_present feed (tick w)) as [l Hl].
    assert (Hsd : setdefault feed (tick w)
                  = (Returns tt, snd (setdefault feed (tick w)))) by reflexivity.
    remember (snd (setdefault feed (tick w))) as w2 eqn:Ew2. clear Ew2.
    rewrite Hsd. cbv beta iota.
    pose proof (identify_new_pure feed (e0 :: es) [] w2) as Hpure.
    pose proof (identify_new_returns feed (e0 :: es) [] w2 l) as Hret.
    destruct (identify_new feed (e0 :: es) [] w2) as [[r|x] w3];
      cbn [fst snd] in Hpure, Hret; subst w3; cbv beta iota; [|exact Hw2].
    specialize (Hret r Hl eq_refl).
    apply in_cycle_deliver_loop; [exact Hw2 | eauto |].
    apply Forall_rev. subst r. simpl.
    apply Forall_forall. intros e Hin.
    apply list_elem_of_filter in Hin as [Hfr _].
    destruct Hw2 as [ds [_ _ H3 _ _]]. specialize (H3 feed).
    unfold history at 1 in H3. rewrite Hl in H3. simpl in H3. rewrite H3 in Hfr.
    eapply fresh_entry_prefix, Hfr.
Qed.

Lemma in_cycle_poll_feed base ds0 hf0 config env feed :
  keeps (in_cycle base ds0 hf0) (poll_feed config env feed).
Proof.
  unfold poll_feed. destruct (truthy (strip feed)).
  - apply keeps_bind; [apply in_cycle_stable, stable_logger|]. intros _.
    apply keeps_try_except; [apply in_cycle_check_feed|].
    intros e. simpl. apply in_cycle_stable, stable_logger.
  - apply in_cycle_stable, stable_ret.
Qed.

(** Where [load_sent_items] leaves the world, and what it returns. *)
Lemma load_sent_items_pure : pure load_sent_items.
Proof.
  intros w. unfold load_sent_items, try_except, read_history_file.
  destruct (history_file w) as [| |[]]; reflexivity.
Qed.

(** The invariant of a whole cycle, from the store that was loaded. *)
Lemma check_feeds_in_cycle_eq config env w loaded r w' :
  check_feeds config env w = (r, w') ->
  fst (load_sent_items w) = Returns loaded ->
  in_cycle loaded (deliveries w) (history_file w) w'
  ∧ forall s, r = Returns s -> s = sent_items w'.
Proof.
  intros Hcf Hload. unfold check_feeds in Hcf. unfold bind at 1 in Hcf.
  pose proof (load_sent_items_pure w) as Hp.
  destruct (load_sent_items w) as [[s0|x] w0]; simpl in Hload, Hp;
    [|discriminate]. injection Hload as ->. subst w0.
  unfold bind at 1 in Hcf. unfold modify at 1 in Hcf.
  pose proof (in_cycle_start loaded w) as Hw1.
  set (w1 := set_sent_items loaded w) in *.
  unfold bind at 1 in Hcf.
  pose proof (in_cycle_stable loaded (deliveries w) (history_file w)
                (load_feeds env) (stable_load_feeds env) w1 Hw1) as Hw2.
  destruct (load_feeds env w1) as [[feeds|x] w2]; simpl in Hw2;
    [|injection Hcf as <- <-; split; [exact Hw2|intros s [=]]].
  destruct feeds as [|f0 fs].
  - unfold bind, logger, modify, get, ret in Hcf. injection Hcf as <- <-. split.
    + eapply in_cycle_view; [|exact Hw2]. reflexivity.
    + intros s [= <-]. reflexivity.
  - unfold bind at 1 in Hcf.
    pose proof (keeps_for_each (in_cycle loaded (deliveries w) (history_file w))
                  (f0 :: fs) (poll_feed config env)
                  (fun x _ => in_cycle_poll_feed loaded _ _ config env x) w2 Hw2)
      as Hw3.
    destruct (for_each (f0 :: fs) (poll_feed config env) w2) as [[[]|x] w3];
      simpl in Hw3; unfold bind, get, ret in Hcf; injection Hcf as <- <-.
    + split; [exact Hw3|]. intros s [= <-]. reflexivity.
    + split; [exact Hw3|intros s [=]].
Qed.

Lemma check_feeds_in_cycle config env w loaded :
  fst (load_sent_items w) = Returns loaded ->
  in_cycle loaded (deliveries w) (history_file w) (snd (check_feeds config env w))
  ∧ forall s, fst (check_feeds config env w) = Returns s ->
              s = sent_items (snd (check_feeds config env w)).
Proof.
  intros Hload. destruct (check_feeds config env w) as [r w'] eqn:Hcf.
  exact (check_feeds_in_cycle_eq config env w loaded r w' Hcf Hload).
Qed.

Lemma load_sent_items_json w s :
  history_file w = Holds (Json s) -> load_sent_items w = (Returns s, w).
Proof.
  intros H. unfold load_sent_items, try_except, read_history_file. rewrite H.
  reflexivity.
Qed.

Lemma unseen_prefix (s1 s2 : Store) d :
  (forall feed, exists added, history s2 feed = history s1 feed ++ added) ->
  unseen s2 d -> unseen s1 d.
Proof.
  unfold unseen. intros H [Hid Hd]. split; [exact Hid|]. intros Hin. apply Hd.
  destruct (H (delivery_feed d)) as [added ->]. set_solver.
Qed.

(** Over any number of rounds of the main loop, no identifier of the
    store loaded by the first round is delivered. *)
Lemma poll_loop_unseen config env n : forall w loaded,
  fst (load_sent_items w) = Returns loaded ->
  exists ds, deliveries (snd (poll_loop config env n w)) = deliveries w ++ ds
             ∧ Forall (unseen loaded) ds.
Proof.
  induction n as [|n IH]; intros w loaded Hload; simpl.
  - exists []. rewrite app_nil_r. auto.
  - unfold bind at 1.
    destruct (check_feeds config env w) as [r w1] eqn:Hcf.
    destruct (check_feeds_in_cycle_eq config env w loaded r w1 Hcf Hload)
      as [[ds1 [H1 H2 H3 H4 H5]] Hr].
    destruct r as [s|x]; [|exists ds1; auto].
    specialize (Hr s eq_refl). subst s.
    unfold bind at 1.
    pose proof (save_sent_items_cases env (sent_items w1) w1) as (_ & Hd & _ & Hf).
    destruct (save_sent_items env (sent_items w1) w1) as [[[]|x] w2];
      simpl in Hd, Hf; [|exists ds1; simpl; rewrite Hd; auto].
    specialize (Hf eq_refl).
    unfold bind, logger, sleep, modify. cbv beta iota.
    set (w3 := add_sleep _ _).
    destruct (IH w3 (sent_items w1)) as (ds2 & Hd2 & Hu2).
    { rewrite (load_sent_items_json w3 (sent_items w1)); [reflexivity|exact Hf]. }
    exists (ds1 ++ ds2). split.
    + rewrite Hd2. simpl. rewrite Hd, H1, app_assoc. reflexivity.
    + apply Forall_app. split; [exact H2|].
      eapply Forall_impl; [exact Hu2|]. intros d. apply unseen_prefix.
      intros feed. eauto.
Qed.

(** *** The cycle comes to its end *)

Lemma for_each_returns {A} (l : list A) (body : A -> M unit) w :
  (forall x w', fst (body x w') = Returns tt) ->
  fst (for_each l body w) = Returns tt.
Proof.
  intros Hb. revert w. induction l as [|x l IH]; intros w; simpl; [reflexivity|].
  unfold bind. specialize (Hb x w).
  destruct (body x w) as [[[]|e] w']; simpl in Hb; [apply IH|discriminate].
Qed.

Lemma poll_feed_returns config env feed w :
  fst (poll_feed config env feed w) = Returns tt.
Proof.
  unfold poll_feed. destruct (truthy (strip feed)); [|reflexivity].
  unfold bind, logger, modify, try_except. cbv beta iota.
  destruct (check_feed config env feed _) as [[[]|e] w']; reflexivity.
Qed.

(** [load_feeds] returns unless the feed file is missing. *)
Lemma load_feeds_returns env w :
  feeds_file w ≠ Missing -> exists feeds, fst (load_feeds env w) = Returns feeds.
Proof.
  intros H. unfold load_feeds, try_except, bind, read_feeds_file.
  destruct (feeds_file w); [congruence| |]; simpl; eauto.
Qed.

Lemma check_feeds_returns config env w loaded :
  fst (load_sent_items w) = Returns loaded ->
  feeds_file w ≠ Missing ->
  exists s, fst (check_feeds config env w) = Returns s.
Proof.
  intros Hload Hfile. unfold check_feeds. unfold bind at 1.
  pose proof (load_sent_items_pure w) as Hp.
  destruct (load_sent_items w) as [[s0|x] w0]; simpl in Hload, Hp;
    [|discriminate]. subst w0.
  unfold bind at 1. unfold modify at 1. unfold bind at 1.
  destruct (load_feeds_returns env (set_sent_items s0 w) Hfile) as [feeds Hf].
  destruct (load_feeds env (set_sent_items s0 w)) as [[fs|x] w2];
    simpl in Hf; [|discriminate].
  destruct fs as [|f0 fs]; [eexists; reflexivity|].
  unfold bind at 1.
  pose proof (for_each_returns (f0 :: fs) (poll_feed config env) w2
                (poll_feed_returns config env)) as Hl.
  destruct (for_each (f0 :: fs) (poll_feed config env) w2) as [[[]|x] w3];
    simpl in Hl; [|discriminate].
  eexists; reflexivity.
Qed.

(* ===================================================================== *)
(** ** Deduplication and the growth of the history *)
(* ===================================================================== *)

(** C2 (deduplication). Let a poll cycle load the store [loaded]. Every
    call of [send_single_article] the cycle makes is for an identifier
    that [loaded] does not hold for that feed, so nothing recorded is
    delivered again; after the cycle the record of every feed is the
    loaded one followed by the identifiers of the deliveries that
    succeeded, in order, so a failed delivery records nothing and its
    entry is found new again by the next cycle; when no delivery
    succeeded the history file was not written. The same holds over any
    number of rounds of the main loop: no identifier of [loaded] is
    delivered in a later cycle either. *)
Theorem dedup_in_cycle config env w loaded :
  fst (load_sent_items w) = Returns loaded ->
  (exists ds,
     deliveries (snd (check_feeds config env w)) = deliveries w ++ ds
     ∧ Forall (unseen loaded) ds
     ∧ (forall feed,
          history (sent_items (snd (check_feeds config env w))) feed
          = history loaded feed ++ recorded feed ds)
     ∧ (Forall (fun d => delivery_ok d = false) ds ->
        history_file (snd (check_feeds config env w)) = history_file w))
  ∧ (forall n, exists ds,
       deliveries (snd (poll_loop config env n w)) = deliveries w ++ ds
       ∧ Forall (unseen loaded) ds).
Proof.
  intros Hload. split.
  - destruct (check_feeds_in_cycle config env w loaded Hload)
      as [[ds [H1 H2 H3 H4 H5]] _].
    exists ds. auto.
  - intros n. apply poll_loop_unseen, Hload.
Qed.

(** C10 (history monotonicity). Let a poll cycle load the store
    [loaded]. Unless the feed file is missing the cycle returns a store;
    and in the store it returns, the record of every feed that [loaded]
    knows is the loaded record followed by what the cycle added: no
    identifier is removed or moved, whatever the feeds, the network and
    the disk answer. *)
Theorem history_only_grows config env w loaded :
  fst (load_sent_items w) = Returns loaded ->
  (feeds_file w ≠ Missing -> exists s, fst (check_feeds config env w) = Returns s)
  ∧ (forall s, fst (check_feeds config env w) = Returns s ->
       forall feed l, loaded !! feed = Some l ->
         exists added, s !! feed = Some (l ++ added)).
Proof.
  intros Hload. split.
  - intros Hfile. eapply check_feeds_returns; eauto.
  - intros s Hs feed l Hl.
    destruct (check_feeds_in_cycle config env w loaded Hload)
      as [[ds [_ _ H3 H4 _]] Hr].
    specialize (Hr s Hs). subst s.
    destruct (H4 feed) as [l' Hl']; [eauto|].
    exists (recorded feed ds). rewrite Hl'. f_equal.
    specialize (H3 feed). unfold history in H3. rewrite Hl', Hl in H3. exact H3.
Qed.

Lemma dedup_in_cycle_witness :
  fst (load_sent_items Samples.seen_world) = Returns Samples.seen_store
  ∧ exists ds,
      deliveries (snd (check_feeds Samples.cfg Samples.three_feed_env Samples.seen_world)) = [] ++ ds
      ∧ Forall (unseen Samples.seen_store) ds.
Proof.
  split; [reflexivity|].
  destruct (dedup_in_cycle Samples.cfg Samples.three_feed_env Samples.seen_world
              Samples.seen_store eq_refl) as [[ds (H1 & H2 & _)] _].
  exists ds. split; [exact H1 | exact H2].
Defined.

Lemma history_only_grows_witness :
  fst (load_sent_items Samples.seen_world) = Returns Samples.seen_store
  ∧ forall s,
      fst (check_feeds Samples.cfg Samples.three_feed_env Samples.seen_world) = Returns s ->
      forall feed l, Samples.seen_store !! feed = Some l ->
        exists added, s !! feed = Some (l ++ added).
Proof.
  split; [reflexivity|].
  exact (proj2 (history_only_grows Samples.cfg Samples.three_feed_env Samples.seen_world
                  Samples.seen_store eq_refl)).
Defined.

(** The same scenario, run: [e2] was sent before, so the
    cycle sends [e1] and then [e3] and appends them in that order. *)
Example seen_world_cycle :
  fst (check_feeds Samples.cfg Samples.three_feed_env Samples.seen_world)
  = Returns {[ Samples.feed_url := [lit "e2"; lit "e1"; lit "e3"] ]}.
Proof. vm_compute. reflexivity. Qed.

(* ===================================================================== *)
(** ** Order of delivery *)
(* ===================================================================== *)

Lemma deliver_no_id config env feed feed_title entry x w :
  entry_id_value entry = Raises x ->
  deliver config env feed feed_title entry w = (Raises x, w).
Proof. intros H. unfold deliver, bind, entry_id_of. rewrite H. reflexivity. Qed.









(** The end-to-end scenario: the first cycle sends the three entries,
    oldest first, and records them; the second cycle, on the same feed,
    sends nothing. *)
Example two_cycles :
  delivery_id <$>
    deliveries (snd (poll_loop Samples.cfg Samples.three_feed_env 2 Samples.fresh_world))
  = [lit "e1"; lit "e2"; lit "e3"]
  ∧ history_file (snd (poll_loop Samples.cfg Samples.three_feed_env 2 Samples.fresh_world))
    = Holds (Json {[ Samples.feed_url := [lit "e1"; lit "e2"; lit "e3"] ]}).
Proof. split; vm_compute; reflexivity. Qed.

(* ===================================================================== *)
(** ** Size of the history *)
(* ===================================================================== *)

(** C1 (history cap). [config.py] sets [MAX_HISTORY_ITEMS] to 200, and
    [check_feeds] never reads it: on a fresh installation whose feed
    shows 201 new entries, all of them delivered, the record of the
    feed holds 201 identifiers at the end of the cycle, the oldest
    delivered one still at its head. *)
Theorem history_exceeds_cap :
  MAX_HISTORY_ITEMS Samples.cfg = 200
  ∧ length (history
              (sent_items (snd (check_feeds Samples.cfg (Samples.long_feed_env 201)
                                  Samples.fresh_world)))
              Samples.feed_url) = 201
  ∧ head (history
            (sent_items (snd (check_feeds Samples.cfg (Samples.long_feed_env 201)
                                Samples.fresh_world)))
            Samples.feed_url) = Some [97%N].
Proof. repeat split; vm_compute; reflexivity. Qed.

(* ===================================================================== *)
(** ** Loading the feed list and the history *)
(* ===================================================================== *)

(** C3 (missing feed file). With the feed file missing, [load_feeds]
    logs its warning and then evaluates [os.makedirs]; the module never
    imports [os], so [NameError] leaves the handler: nothing is
    returned, the file is not created, and [check_feeds] passes the
    exception on to the main loop. *)
Theorem load_feeds_missing_file config env w :
  load_feeds env (set_feeds_file Missing w)
  = (Raises (NameError "os"),
     add_log (WARNING, FeedFileNotFound) (set_feeds_file Missing w))
  ∧ fst (check_feeds config env (set_history_file Missing (set_feeds_file Missing w)))
    = Raises (NameError "os")
  ∧ feeds_file (snd (check_feeds config env
                       (set_history_file Missing (set_feeds_file Missing w))))
    = Missing.
Proof. repeat split. Qed.

(** C8 (loading the history). [load_sent_items] takes a history file
    that is missing, or whose text is not JSON, for the empty store. A
    history file whose bytes are not UTF-8 text is malformed content as
    well, but reading it raises [UnicodeDecodeError], which the
    [except] clause does not name: nothing is returned, and
    [check_feeds] and the main loop end with the exception. *)
Theorem load_sent_items_undecodable config env w :
  load_sent_items (set_history_file Missing w)
  = (Returns ∅, set_history_file Missing w)
  ∧ load_sent_items (set_history_file (Holds NotJson) w)
    = (Returns ∅, set_history_file (Holds NotJson) w)
  ∧ load_sent_items (set_history_file (Holds NotUtf8) w)
    = (Raises UnicodeDecodeError, set_history_file (Holds NotUtf8) w)
  ∧ fst (check_feeds config env (set_history_file (Holds NotUtf8) w))
    = Raises UnicodeDecodeError
  ∧ fst (poll_loop config env 1 (set_history_file (Holds NotUtf8) w))
    = Raises UnicodeDecodeError.
Proof. repeat split. Qed.

(** The same on a sample world. *)
Example load_sent_items_garbled :
  fst (load_sent_items Samples.garbled_world) = Raises UnicodeDecodeError.
Proof. reflexivity. Qed.

(* ===================================================================== *)
(** ** The message *)
(* ===================================================================== *)

(** C5 (truncation). A cleaned description of more than 800 characters
    is rendered as its first 797 characters followed by the three
    characters of the ellipsis, 800 characters in all; a description of
    at most 800 characters is rendered as it is. *)
Theorem description_truncation config env entry :
  (800 < length (cleaned_description config env entry) ->
   article_description config env entry
   = take 797 (cleaned_description config env entry) ++ lit "..."
   ∧ length (article_description config env entry) = 800)
  ∧ (length (cleaned_description config env entry) <= 800 ->
     article_description config env entry = cleaned_description config env entry).
Proof.
  unfold article_description, truncate_description, max_desc_len.
  split; intros H.
  - destruct (Nat.ltb_spec 800 (length (cleaned_description config env entry)));
      [|lia].
    split; [reflexivity|].
    rewrite length_app, length_take. change (length (lit "...")) with 3. lia.
  - destruct (Nat.ltb_spec 800 (length (cleaned_description config env entry)));
      [lia|reflexivity].
Qed.

Lemma description_truncation_witness :
  length (cleaned_description Samples.cfg_description Samples.offline
            Samples.long_description_entry) = 1000
  ∧ article_description Samples.cfg_description Samples.offline
      Samples.long_description_entry
    = repeat 97%N 797 ++ lit "..."
  ∧ length (article_description Samples.cfg_description Samples.offline
              Samples.long_description_entry) = 800.
Proof.
  split; [vm_compute; reflexivity|].
  destruct (proj1 (description_truncation Samples.cfg_description Samples.offline
                     Samples.long_description_entry)) as [H1 H2].
  - vm_compute. lia.
  - split; [rewrite H1; vm_compute; reflexivity | exact H2].
Defined.

Lemma truncate_description_length d :
  length (truncate_description d) <= 800.
Proof.
  unfold truncate_description, max_desc_len.
  destruct (Nat.ltb_spec 800 (length d)); [|lia].
  rewrite length_app, length_take. change (length (lit "...")) with 3. lia.
Qed.

(** The length of the message, whatever the fields hold. *)
Lemma format_message_length config env entry feed_title :
  length (format_message config env entry feed_title)
  <= length (default (lit "No title") (attr_title entry))
     + length (default [] (attr_link entry)) + length feed_title + 813.
Proof.
  unfold format_message.
  pose proof (truncate_description_length (cleaned_description config env entry)) as Hd.
  fold (article_description config env entry) in Hd.
  destruct (truthy (article_description config env entry));
    rewrite !length_app; simpl length;
    change (length bullet) with 3; change (length (lit " [")) with 2;
    change (length (lit "](")) with 2; change (length (lit ")")) with 1;
    change (length (lit "_")) with 1; lia.
Qed.

(** C9 (message length). The formatter bounds the description
    only: the message has at most 813 characters more than the title,
    the link and the feed title together, so it stays within the 4096
    characters of a Telegram message when these three fields together
    have at most 3283 characters. *)
Theorem message_length_bound config env entry feed_title :
  length (default (lit "No title") (attr_title entry))
    + length (default [] (attr_link entry)) + length feed_title <= 3283 ->
  length (format_message config env entry feed_title) <= 4096.
Proof.
  intros H. pose proof (format_message_length config env entry feed_title). lia.
Qed.

Lemma message_length_bound_witness :
  length (format_message Samples.cfg Samples.offline Samples.E1 (lit "Example")) <= 4096.
Proof.
  apply (message_length_bound Samples.cfg Samples.offline Samples.E1 (lit "Example")).
  vm_compute. lia.
Defined.

Lemma message_length_exceeded :
  MAX_MESSAGE_LENGTH Samples.cfg = 4096
  ∧ length (format_message Samples.cfg Samples.offline Samples.long_title_entry
              (lit "Example")) = 4118.
Proof. split; vm_compute; reflexivity. Qed.

(* ===================================================================== *)
(** ** Image first, text as the fallback *)
(* ===================================================================== *)

(** C6 (image fallback). For an entry whose image URL is
    neither null nor empty, once the topic identifier is converted,
    [send_single_article] first calls [send_photo] with the formatted
    message as the caption; if and only if that call fails it then
    calls [send_message] with the same text; and it returns True when
    one of the two calls was accepted, False otherwise. *)
Theorem image_then_text config env chat entry feed_title topic w url thread :
  extract_image entry = Some url ->
  truthy url = true ->
  thread_value env topic = Returns thread ->
  fst (send_single_article config env chat entry feed_title topic w)
  = Returns
      (accepted (bot_answer env (clock w)
                   (photo_call config env chat entry feed_title thread url))
       || accepted (bot_answer env (S (clock w))
                      (text_call config env chat entry feed_title thread)))
  ∧ new_bot_calls (send_single_article config env chat entry feed_title topic) w
    = (photo_call config env chat entry feed_title thread url,
       bot_answer env (clock w) (photo_call config env chat entry feed_title thread url))
      :: (if accepted (bot_answer env (clock w)
                         (photo_call config env chat entry feed_title thread url))
          then []
          else [(text_call config env chat entry feed_title thread,
                 bot_answer env (S (clock w))
                   (text_call config env chat entry feed_title thread))]).
Proof.
  intros Himg Hurl Hthread.
  unfold new_bot_calls, send_single_article, bind, thread_of.
  rewrite Hthread, Himg. unfold usable_image. rewrite Hurl.
  unfold try_except, bind, bot_call, logger, modify, ret.
  fold (photo_call config env chat entry feed_title thread url).
  fold (text_call config env chat entry feed_title thread).
  cbn [is_Exception].
  destruct (bot_answer env (clock w) (photo_call _ _ _ _ _ _ _)) as [e1|] eqn:H1;
    cbn -[photo_call text_call].
  - destruct (bot_answer env (S (clock w)) (text_call _ _ _ _ _ _)) as [e2|] eqn:H2;
      cbn -[photo_call text_call];
      (split; [reflexivity|]);
      rewrite <- app_assoc, drop_app_length; reflexivity.
  - split; [reflexivity|]. rewrite drop_app_length. reflexivity.
Qed.

Lemma image_then_text_witness :
  fst (send_single_article Samples.cfg Samples.no_photo_env (Some (lit "chat"))
         Samples.thumbnail_entry (lit "Example") None Samples.fresh_world)
  = Returns true
  ∧ new_bot_calls (send_single_article Samples.cfg Samples.no_photo_env
                     (Some (lit "chat")) Samples.thumbnail_entry (lit "Example") None)
      Samples.fresh_world
    = [(photo_call Samples.cfg Samples.no_photo_env (Some (lit "chat"))
          Samples.thumbnail_entry (lit "Example") None (lit "thumb.png"),
        Some LibraryError);
       (text_call Samples.cfg Samples.no_photo_env (Some (lit "chat"))
          Samples.thumbnail_entry (lit "Example") None,
        None)].
Proof.
  exact (image_then_text Samples.cfg Samples.no_photo_env (Some (lit "chat"))
           Samples.thumbnail_entry (lit "Example") None Samples.fresh_world
           (lit "thumb.png") None eq_refl eq_refl eq_refl).
Defined.

(** An image URL that is the empty string is not null, and no photo is
    sent for it: the only call is the text. *)
Lemma empty_image_url_sends_text_only :
  extract_image Samples.empty_src_entry = Some []
  ∧ new_bot_calls (send_single_article Samples.cfg Samples.offline
                     (Some (lit "chat")) Samples.empty_src_entry (lit "Example") None)
      Samples.fresh_world
    = [(text_call Samples.cfg Samples.offline (Some (lit "chat"))
          Samples.empty_src_entry (lit "Example") None,
        None)].
Proof. split; vm_compute; reflexivity. Qed.

(* ===================================================================== *)
(** ** Where the image comes from *)
(* ===================================================================== *)

Lemma image_of_media_first l m :
  first_such image_media l m -> image_of_media l = Some (media_url m).
Proof.
  intros (l1 & l2 & -> & Hm & Hl1).
  induction Hl1 as [|y l1 Hy _ IH]; simpl; [rewrite Hm|rewrite Hy]; auto.
Qed.

Lemma image_of_media_none l :
  Forall (fun y => image_media y = false) l -> image_of_media l = None.
Proof. induction 1 as [|y l Hy _ IH]; simpl; [|rewrite Hy]; auto. Qed.

Lemma image_of_enclosures_first l e :
  first_such image_enclosure l e -> image_of_enclosures l = Some (enclosure_href e).
Proof.
  intros (l1 & l2 & -> & He & Hl1).
  induction Hl1 as [|y l1 Hy _ IH]; simpl; [rewrite He|rewrite Hy]; auto.
Qed.

Lemma image_of_enclosures_none l :
  Forall (fun y => image_enclosure y = false) l -> image_of_enclosures l = None.
Proof. induction 1 as [|y l Hy _ IH]; simpl; [|rewrite Hy]; auto. Qed.

Lemma image_of_content_first l c g :
  first_such content_has_image l c ->
  Re.search_img (default [] (content_value c)) = Some g ->
  image_of_content l = Some (Some g).
Proof.
  intros (l1 & l2 & -> & _ & Hl1) Hg.
  induction Hl1 as [|y l1 Hy _ IH]; simpl; [rewrite Hg; reflexivity|].
  unfold content_has_image, has_img_src in Hy.
  destruct (Re.search_img (default [] (content_value y))); [discriminate|exact IH].
Qed.

Lemma image_of_content_none l :
  Forall (fun y => content_has_image y = false) l -> image_of_content l = None.
Proof.
  induction 1 as [|y l Hy _ IH]; simpl; [reflexivity|].
  unfold content_has_image, has_img_src in Hy.
  destruct (Re.search_img (default [] (content_value y))); [discriminate|exact IH].
Qed.

Lemma none_such_bind {A B} (P : A -> bool) (o : option (list A))
    (loop : list A -> option B) :
  (forall l, Forall (fun y => P y = false) l -> loop l = None) ->
  none_such P o -> o ≫= loop = None.
Proof. intros Hloop Hn. destruct o as [l|]; simpl; auto. Qed.

(** [if description:] adds nothing to the search: the empty string has
    no match. *)
Lemma search_img_truthy s :
  (if truthy s then Re.search_img s else None) = Re.search_img s.
Proof. destruct s; reflexivity. Qed.

(** C7 (image resolution order). [extract_image] takes the image from
    the first of five places that has one: (1) the first element of
    [media_content] whose type starts with [image/] or whose medium is
    [image] gives its [url]; failing that, (2) the first enclosure
    whose type starts with [image/] gives its [href]; failing that,
    (3) the first element of [media_thumbnail] gives its [url]; failing
    that, (4) the first match of the image pattern in the description
    (or the summary when the description is absent or empty) gives its
    group; failing that, (5) the first content block in which the
    pattern matches gives the group of its first match; and when none
    of the five has an image the result is null. *)
Theorem extract_image_order entry :
  (forall l m, attr_media_content entry = Some l -> first_such image_media l m ->
     extract_image entry = media_url m)
  ∧ (none_such image_media (attr_media_content entry) ->
     forall l e, attr_enclosures entry = Some l -> first_such image_enclosure l e ->
       extract_image entry = enclosure_href e)
  ∧ (none_such image_media (attr_media_content entry) ->
     none_such image_enclosure (attr_enclosures entry) ->
     forall t r, attr_media_thumbnail entry = Some (t :: r) ->
       extract_image entry = thumbnail_url t)
  ∧ (none_such image_media (attr_media_content entry) ->
     none_such image_enclosure (attr_enclosures entry) ->
     no_thumbnail entry ->
     forall g, Re.search_img (description_or_summary entry) = Some g ->
       extract_image entry = Some g)
  ∧ (none_such image_media (attr_media_content entry) ->
     none_such image_enclosure (attr_enclosures entry) ->
     no_thumbnail entry ->
     Re.search_img (description_or_summary entry) = None ->
     forall l c g, attr_content entry = Some l -> first_such content_has_image l c ->
       Re.search_img (default [] (content_value c)) = Some g ->
       extract_image entry = Some g)
  ∧ (none_such image_media (attr_media_content entry) ->
     none_such image_enclosure (attr_enclosures entry) ->
     no_thumbnail entry ->
     Re.search_img (description_or_summary entry) = None ->
     none_such content_has_image (attr_content entry) ->
     extract_image entry = None).
Proof.
  unfold extract_image. repeat split.
  - intros l m -> Hm. simpl. rewrite (image_of_media_first l m Hm). reflexivity.
  - intros H1 l e -> He.
    rewrite (none_such_bind _ _ _ image_of_media_none H1). simpl.
    rewrite (image_of_enclosures_first l e He). reflexivity.
  - intros H1 H2 t r ->.
    rewrite (none_such_bind _ _ _ image_of_media_none H1),
      (none_such_bind _ _ _ image_of_enclosures_none H2). reflexivity.
  - intros H1 H2 H3 g Hg.
    rewrite (none_such_bind _ _ _ image_of_media_none H1),
      (none_such_bind _ _ _ image_of_enclosures_none H2), search_img_truthy, Hg.
    destruct H3 as [-> | ->]; reflexivity.
  - intros H1 H2 H3 H4 l c g -> Hc Hg.
    rewrite (none_such_bind _ _ _ image_of_media_none H1),
      (none_such_bind _ _ _ image_of_enclosures_none H2), search_img_truthy, H4.
    simpl. rewrite (image_of_content_first l c g Hc Hg).
    destruct H3 as [-> | ->]; reflexivity.
  - intros H1 H2 H3 H4 H5.
    rewrite (none_such_bind _ _ _ image_of_media_none H1),
      (none_such_bind _ _ _ image_of_enclosures_none H2), search_img_truthy, H4,
      (none_such_bind _ _ _ image_of_content_none H5).
    destruct H3 as [-> | ->]; reflexivity.
Qed.

Lemma extract_image_order_witness :
  extract_image Samples.thumbnail_entry = Some (lit "thumb.png").
Proof.
  refine (proj1 (proj2 (proj2 (extract_image_order Samples.thumbnail_entry)))
            _ _ {| thumbnail_url := Some (lit "thumb.png") |} [] eq_refl).
  - intros l [= <-]. repeat constructor.
  - intros l [= <-]. constructor.
Defined.

(* ===================================================================== *)
(** ** The image pattern finds the first image tag *)
(* ===================================================================== *)

Lemma ci_prefix_Some p : forall s r,
  Re.ci_prefix p s = Some r -> exists x, s = x ++ r ∧ ci_match p x.
Proof.
  induction p as [|a p IH]; intros s r; simpl.
  - intros [= <-]. exists []. split; [reflexivity|constructor].
  - destruct s as [|b s]; [discriminate|].
    destruct (Re.ci_eq a b) eqn:Hab; [|discriminate].
    intros H. destruct (IH s r H) as (x & -> & Hx).
    exists (b :: x). split; [reflexivity|]. constructor; assumption.
Qed.

Lemma ci_prefix_match p x r : ci_match p x -> Re.ci_prefix p (x ++ r) = Some r.
Proof.
  induction 1 as [|a b p x Hab _ IH]; simpl; [reflexivity|].
  rewrite Hab. exact IH.
Qed.

Lemma lazy_until_quote_Some s : forall g,
  Re.lazy_until_quote s = Some g ->
  exists q post, s = g ++ q :: post ∧ Re.is_quote q = true ∧ Forall in_group g.
Proof.
  induction s as [|c s IH]; intros g; simpl; [discriminate|].
  destruct (Re.is_quote c) eqn:Hq.
  - intros [= <-]. exists c, s. repeat split; auto.
  - destruct (N.eqb_spec c newline) as [->|Hn]; [discriminate|].
    destruct (Re.lazy_until_quote s) as [g'|]; [|discriminate].
    intros [= <-]. destruct (IH g' eq_refl) as (q & post & -> & Hq' & Hg).
    exists q, post. repeat split; auto. constructor; [split|]; auto.
Qed.

Lemma lazy_until_quote_match g q post :
  Re.is_quote q = true -> Forall in_group g ->
  Re.lazy_until_quote (g ++ q :: post) = Some g.
Proof.
  intros Hq. induction 1 as [|c g [Hc Hn] _ IH]; simpl.
  - rewrite Hq. reflexivity.
  - rewrite Hc. destruct (N.eqb_spec c newline); [contradiction|].
    rewrite IH. reflexivity.
Qed.

Lemma src_here_Some s g : Re.src_here s = Some g -> src_attr s g.
Proof.
  unfold Re.src_here. intros H.
  destruct (Re.ci_prefix (lit "src=") s) as [[|q r]|] eqn:Hp; try discriminate.
  destruct (Re.is_quote q) eqn:Hq; [|discriminate].
  apply ci_prefix_Some in Hp as (src & -> & Hsrc).
  apply lazy_until_quote_Some in H as (q2 & post & -> & Hq2 & Hg).
  exists src, q, q2, post. auto.
Qed.

Lemma src_here_match s g : src_attr s g -> Re.src_here s = Some g.
Proof.
  intros (src & q1 & q2 & post & -> & Hsrc & Hq1 & Hq2 & Hg).
  unfold Re.src_here. rewrite (ci_prefix_match _ _ _ Hsrc), Hq1.
  apply lazy_until_quote_match; assumption.
Qed.

(** Where [src=] starts, no [>] stands. *)
Lemma src_attr_head s g :
  src_attr s g -> exists c r, s = c :: r ∧ c ≠ Re.gt_sign.
Proof.
  intros (src & q1 & q2 & post & -> & Hsrc & _).
  inversion Hsrc as [|a b p x Hab Hrest]; subst.
  exists b, (x ++ q1 :: g ++ q2 :: post). split; [reflexivity|].
  intros ->. vm_compute in Hab. discriminate.
Qed.

Lemma best_src_Some s : forall g,
  Re.best_src s = Some g ->
  exists mid rest, s = mid ++ rest ∧ Forall (fun c => c ≠ Re.gt_sign) mid
                   ∧ src_attr rest g.
Proof.
  induction s as [|c s IH]; intros g; simpl; [discriminate|].
  destruct (N.eqb_spec c Re.gt_sign) as [->|Hc]; [discriminate|].
  destruct (Re.best_src s) as [g'|] eqn:Hb.
  - intros [= <-]. destruct (IH g' eq_refl) as (mid & rest & -> & Hmid & Hr).
    exists (c :: mid), rest. repeat split; auto.
  - intros H. exists [], (c :: s). repeat split; auto. apply src_here_Some, H.
Qed.

Lemma best_src_match mid : forall rest g,
  Forall (fun c => c ≠ Re.gt_sign) mid -> src_attr rest g ->
  exists g', Re.best_src (mid ++ rest) = Some g'.
Proof.
  induction mid as [|c mid IH]; intros rest g Hmid Hr; simpl.
  - destruct (src_attr_head rest g Hr) as (c & r & -> & Hc). simpl.
    destruct (N.eqb_spec c Re.gt_sign); [contradiction|].
    destruct (Re.best_src r); [eauto|].
    exists g. apply src_here_match, Hr.
  - inversion Hmid as [|? ? Hc Hmid']; subst.
    destruct (N.eqb_spec c Re.gt_sign); [contradiction|].
    destruct (IH rest g Hmid' Hr) as [g' ->]. eauto.
Qed.

(** A match of the pattern at the head of [s] is an image tag there. *)
Lemma match_img_Some s g : Re.match_img s = Some g -> img_tag s g.
Proof.
  unfold Re.match_img. destruct s as [|c s]; [discriminate|].
  destruct (N.eqb_spec c Re.lt_sign) as [->|]; [|discriminate].
  destruct (Re.ci_prefix (lit "img") s) as [[|d r]|] eqn:Hp; try discriminate.
  destruct (N.eqb_spec d Re.gt_sign) as [|Hd]; [discriminate|].
  intros H. apply ci_prefix_Some in Hp as (img & -> & Himg).
  apply best_src_Some in H as (mid & rest & -> & Hmid & Hr).
  exists img, (d :: mid), rest. repeat split; auto.
Qed.

(** Where an image tag starts, the pattern matches. *)
Lemma match_img_match s g : img_tag s g -> exists g', Re.match_img s = Some g'.
Proof.
  intros (img & mid & rest & -> & Himg & Hne & Hmid & Hr).
  destruct mid as [|d mid]; [congruence|].
  inversion Hmid as [|? ? Hd Hmid']; subst.
  unfold Re.match_img. cbv beta iota. rewrite N.eqb_refl.
  change ((d :: mid) ++ rest) with (d :: mid ++ rest).
  rewrite (ci_prefix_match _ _ _ Himg).
  destruct (N.eqb_spec d Re.gt_sign); [contradiction|].
  eapply best_src_match; eauto.
Qed.

Lemma search_img_cons c s :
  Re.search_img (c :: s)
  = match Re.match_img (c :: s) with
    | Some g => Some g
    | None => Re.search_img s
    end.
Proof. reflexivity. Qed.

Lemma search_img_Some s : forall g,
  Re.search_img s = Some g ->
  exists pre rest,
    s = pre ++ rest ∧ Re.match_img rest = Some g
    ∧ forall pre1 rest1, s = pre1 ++ rest1 -> length pre1 < length pre ->
        Re.match_img rest1 = None.
Proof.
  induction s as [|c s IH]; intros g.
  - discriminate.
  - rewrite search_img_cons.
    destruct (Re.match_img (c :: s)) as [g'|] eqn:Hm.
    + intros [= <-]. exists [], (c :: s). split; [reflexivity|]. split; [exact Hm|].
      intros pre1 rest1 _ Hlt. simpl in Hlt. lia.
    + intros H. destruct (IH g H) as (pre & rest & -> & Hr & Hfirst).
      exists (c :: pre), rest. repeat split; auto.
      intros pre1 rest1 Heq Hlt. destruct pre1 as [|c1 pre1].
      * simpl in Heq. subst rest1. exact Hm.
      * injection Heq as <- Heq. apply (Hfirst pre1 rest1 Heq). simpl in Hlt. lia.
Qed.

Lemma search_img_None s :
  Re.search_img s = None ->
  forall pre rest, s = pre ++ rest -> Re.match_img rest = None.
Proof.
  induction s as [|c s IH].
  - intros _ pre rest Heq. symmetry in Heq. apply app_eq_nil in Heq as [_ ->].
    reflexivity.
  - rewrite search_img_cons.
    destruct (Re.match_img (c :: s)) as [g'|] eqn:Hm; [discriminate|].
    intros H pre rest Heq. destruct pre as [|c1 pre].
    + simpl in Heq. subst rest. exact Hm.
    + injection Heq as <- Heq. apply (IH H pre rest Heq).
Qed.

(** X20. [re.search] with the image pattern returns the source of an image
    tag that starts where the first image tag of the text starts, and
    finds nothing only in a text without image tag. *)
Lemma search_img_first s g :
  Re.search_img s = Some g ->
  exists pre rest,
    s = pre ++ rest ∧ img_tag rest g
    ∧ forall pre1 rest1 g1, s = pre1 ++ rest1 -> length pre1 < length pre ->
        ¬ img_tag rest1 g1.
Proof.
  intros H. destruct (search_img_Some s g H) as (pre & rest & -> & Hm & Hfirst).
  exists pre, rest. repeat split; [apply match_img_Some, Hm|].
  intros pre1 rest1 g1 Heq Hlt Htag.
  destruct (match_img_match rest1 g1 Htag) as [g' Hg'].
  rewrite (Hfirst pre1 rest1 Heq Hlt) in Hg'. discriminate.
Qed.

Lemma search_img_absent s :
  Re.search_img s = None ->
  forall pre rest g, s = pre ++ rest -> ¬ img_tag rest g.
Proof.
  intros H pre rest g Heq Htag.
  destruct (match_img_match rest g Htag) as [g' Hg'].
  rewrite (search_img_None s H pre rest Heq) in Hg'. discriminate.
Qed.

Example sub_tags_sample :
  Re.sub_tags (lit "<p>Hello <b>world</b></p> 1 < 2 <> <x") = lit "Hello world 1  <x".
Proof. reflexivity. Qed.

Example search_img_sample :
  Re.search_img (lit "<p><IMG class='c' src='a.png' alt='x'></p>") = Some (lit "a.png").
Proof. reflexivity. Qed.

(* ===================================================================== *)
(** ** Cleaning of the description *)
(* ===================================================================== *)

Lemma split_from_words s : forall acc,
  Forall (fun c => isspace c = false) acc -> Forall word (split_from acc s).
Proof.
  induction s as [|c s IH]; intros acc Hacc; simpl.
  - destruct acc as [|a acc]; [constructor|].
    constructor; [|constructor]. split.
    + intros H. apply (f_equal (@length N)) in H. rewrite length_rev in H.
      discriminate.
    + apply Forall_rev, Hacc.
  - destruct (isspace c) eqn:Hc.
    + destruct acc as [|a acc]; [apply IH; constructor|].
      constructor; [|apply IH; constructor]. split.
      * intros H. apply (f_equal (@length N)) in H. rewrite length_rev in H.
        discriminate.
      * apply Forall_rev, Hacc.
    + apply IH. constructor; assumption.
Qed.

Lemma split_words s : Forall word (split s).
Proof. apply split_from_words. constructor. Qed.

Lemma split_from_app w : forall acc s,
  Forall (fun c => isspace c = false) w ->
  split_from acc (w ++ s) = split_from (rev w ++ acc) s.
Proof.
  induction w as [|c w IH]; intros acc s Hw; [reflexivity|].
  inversion Hw as [|? ? Hc Hw']; subst. simpl. rewrite Hc, IH by assumption.
  rewrite <- app_assoc. reflexivity.
Qed.

Lemma split_word w : word w -> split w = [w].
Proof.
  intros [Hne Hw]. unfold split.
  rewrite <- (app_nil_r w) at 1. rewrite split_from_app by assumption.
  simpl. rewrite app_nil_r.
  destruct (rev w) as [|a r] eqn:Hr.
  - apply (f_equal (@length N)) in Hr. rewrite length_rev in Hr.
    destruct w; [congruence|discriminate].
  - rewrite <- Hr, rev_involutive. reflexivity.
Qed.

Lemma split_word_space w s :
  word w -> split (w ++ lit " " ++ s) = w :: split s.
Proof.
  intros [Hne Hw]. unfold split. rewrite split_from_app by assumption.
  rewrite app_nil_r. simpl.
  destruct (rev w) as [|a r] eqn:Hr.
  - apply (f_equal (@length N)) in Hr. rewrite length_rev in Hr.
    destruct w; [congruence|discriminate].
  - rewrite <- Hr, rev_involutive. reflexivity.
Qed.

Lemma join_cons sep p q ps :
  join sep (p :: q :: ps) = p ++ sep ++ join sep (q :: ps).
Proof. reflexivity. Qed.

(** Words joined by single spaces split into the same words. *)
Lemma split_join ws : Forall word ws -> split (join (lit " ") ws) = ws.
Proof.
  induction 1 as [|w ws Hw Hws IH]; [reflexivity|].
  destruct ws as [|w' ws].
  - apply split_word, Hw.
  - rewrite join_cons, split_word_space by assumption. f_equal. exact IH.
Qed.

Lemma join_chars ws c :
  Forall word ws -> c ∈ join (lit " ") ws -> isspace c = true -> c = 32%N.
Proof.
  induction 1 as [|w ws [_ Hw] Hws IH].
  - intros H. inversion H.
  - intros Hin Hc. destruct ws as [|w' ws].
    + rewrite Forall_forall in Hw. rewrite (Hw c Hin) in Hc. discriminate.
    + rewrite join_cons, !elem_of_app in Hin. destruct Hin as [Hin|[Hin|Hin]].
      * rewrite Forall_forall in Hw. rewrite (Hw c Hin) in Hc. discriminate.
      * apply list_elem_of_singleton in Hin. exact Hin.
      * apply IH; assumption.
Qed.

Lemma join_head ws c :
  Forall word ws -> head (join (lit " ") ws) = Some c -> isspace c = false.
Proof.
  intros Hws. destruct Hws as [|w ws [Hne Hw] Hws]; [discriminate|].
  destruct w as [|a w]; [congruence|].
  inversion Hw; subst. destruct ws; [|rewrite join_cons]; intros [= <-]; assumption.
Qed.

Lemma join_last ws c :
  Forall word ws -> last (join (lit " ") ws) = Some c -> isspace c = false.
Proof.
  induction 1 as [|w ws [Hne Hw] Hws IH]; [discriminate|].
  destruct ws as [|w' ws].
  - intros Hl. apply last_Some in Hl as [l' Hl]. simpl in Hl. subst w.
    apply Forall_app in Hw as [_ Hw]. inversion Hw; assumption.
  - rewrite join_cons, app_assoc, last_app.
    destruct (last (join (lit " ") (w' :: ws))) as [x|] eqn:Hx.
    + intros [= <-]. apply IH. reflexivity.
    + exfalso. apply last_None in Hx.
      inversion Hws as [|? ? [Hne' _] _]; subst.
      destruct w' as [|a w']; [congruence|].
      destruct ws; [|rewrite join_cons in Hx]; discriminate.
Qed.

(** X16. [strip_html] normalizes the whitespace of its result: the result is
    made of words, each without whitespace, with one space between two
    words and nothing around them: every whitespace character in it is
    the space, and it neither starts nor ends with one. *)
Theorem strip_html_single_spaced env html_content :
  (exists ws, strip_html env html_content = join (lit " ") ws ∧ Forall word ws)
  ∧ (forall c, c ∈ strip_html env html_content -> isspace c = true -> c = 32%N)
  ∧ (forall c, head (strip_html env html_content) = Some c -> isspace c = false)
  ∧ (forall c, last (strip_html env html_content) = Some c -> isspace c = false).
Proof.
  unfold strip_html.
  pose proof (split_words (html_unescape env (Re.sub_tags html_content))) as Hws.
  repeat split.
  - eexists. split; [reflexivity|exact Hws].
  - intros c. apply join_chars, Hws.
  - intros c. apply join_head, Hws.
  - intros c. apply join_last, Hws.
Qed.

(** X17. Normalizing the whitespace of a result of [strip_html] once more
    changes nothing. *)
Theorem strip_html_renormalize env html_content :
  join (lit " ") (split (strip_html env html_content)) = strip_html env html_content.
Proof.
  unfold strip_html. rewrite split_join; [reflexivity|apply split_words].
Qed.

Lemma sub_tags_from_sublist s : forall pending,
  Re.sub_tags_from pending s
  `sublist_of` match pending with
               | None => s
               | Some buf => Re.lt_sign :: buf ++ s
               end.
Proof.
  induction s as [|c s IH]; intros [buf|]; simpl.
  - rewrite app_nil_r. reflexivity.
  - reflexivity.
  - destruct (N.eqb_spec c Re.gt_sign) as [->|Hc].
    + destruct buf as [|b buf].
      * simpl. do 2 apply sublist_skip. apply (IH None).
      * apply sublist_cons, sublist_inserts_l, sublist_cons, (IH None).
    + specialize (IH (Some (buf ++ [c]))). simpl in IH.
      rewrite <- app_assoc in IH. exact IH.
  - destruct (N.eqb_spec c Re.lt_sign) as [->|Hc].
    + apply (IH (Some [])).
    + apply sublist_skip, (IH None).
Qed.

Lemma sub_tags_from_plain pre : forall r,
  Forall (fun c => c ≠ Re.lt_sign) pre ->
  Re.sub_tags_from None (pre ++ r) = pre ++ Re.sub_tags_from None r.
Proof.
  induction pre as [|c pre IH]; intros r Hpre; [reflexivity|].
  inversion Hpre as [|? ? Hc Hpre']; subst. simpl.
  destruct (N.eqb_spec c Re.lt_sign); [contradiction|].
  rewrite IH by assumption. reflexivity.
Qed.

Lemma sub_tags_from_inside body : forall buf post,
  Forall (fun c => c ≠ Re.gt_sign) body ->
  buf ++ body ≠ [] ->
  Re.sub_tags_from (Some buf) (body ++ Re.gt_sign :: post)
  = Re.sub_tags_from None post.
Proof.
  induction body as [|c body IH]; intros buf post Hbody Hne; simpl.
  - rewrite app_nil_r in Hne. destruct buf; [congruence|reflexivity].
  - inversion Hbody as [|? ? Hc Hbody']; subst.
    destruct (N.eqb_spec c Re.gt_sign); [contradiction|].
    apply IH; [assumption|]. rewrite <- app_assoc. simpl.
    intros H. apply app_eq_nil in H as [_ H]. discriminate.
Qed.

(** X19. [re.sub(r'<[^>]+>', '', s)] only removes characters: what is left
    is the text in its order with some characters left out, and a text
    without [<] is left as it is. *)
Theorem sub_tags_only_removes s :
  Re.sub_tags s `sublist_of` s
  ∧ length (Re.sub_tags s) <= length s
  ∧ (Forall (fun c => c ≠ Re.lt_sign) s -> Re.sub_tags s = s).
Proof.
  pose proof (sub_tags_from_sublist s None) as H. split; [exact H|]. split.
  - apply sublist_length, H.
  - intros Hs. unfold Re.sub_tags.
    rewrite <- (app_nil_r s) at 1. rewrite sub_tags_from_plain by assumption.
    simpl. apply app_nil_r.
Qed.

(** X18. A tag is removed whole: after a text without [<], a [<], at least
    one character other than [>] and a [>] disappear, and the cleaning
    goes on with what follows. *)
Theorem sub_tags_removes_tag pre body post :
  Forall (fun c => c ≠ Re.lt_sign) pre ->
  body ≠ [] ->
  Forall (fun c => c ≠ Re.gt_sign) body ->
  Re.sub_tags (pre ++ Re.lt_sign :: body ++ Re.gt_sign :: post)
  = pre ++ Re.sub_tags post.
Proof.
  intros Hpre Hne Hbody. unfold Re.sub_tags.
  rewrite sub_tags_from_plain by assumption. f_equal. simpl.
  apply sub_tags_from_inside; assumption.
Qed.

Lemma sub_tags_removes_tag_witness :
  Re.sub_tags (lit "Hello " ++ Re.lt_sign :: lit "b class='x'" ++ Re.gt_sign :: lit "world")
  = lit "Hello " ++ Re.sub_tags (lit "world").
Proof.
  apply (sub_tags_removes_tag (lit "Hello ") (lit "b class='x'") (lit "world")).
  - repeat constructor; discriminate.
  - discriminate.
  - repeat constructor; discriminate.
Defined.

(* ===================================================================== *)
(** ** The feed list *)
(* ===================================================================== *)

Lemma lstrip_head s c : head (lstrip s) = Some c -> isspace c = false.
Proof.
  induction s as [|a s IH]; simpl; [discriminate|].
  destruct (isspace a) eqn:Ha; [exact IH|]. intros [= <-]. exact Ha.
Qed.

Lemma lstrip_suffix s : exists pre, s = pre ++ lstrip s.
Proof.
  induction s as [|a s [pre IH]]; simpl; [exists []; reflexivity|].
  destruct (isspace a).
  - exists (a :: pre). simpl. f_equal. exact IH.
  - exists []. reflexivity.
Qed.

Lemma head_rev_last (s : str) : head (rev s) = last s.
Proof.
  induction s as [|a s IH] using rev_ind; [reflexivity|].
  rewrite rev_app_distr, last_snoc. reflexivity.
Qed.

Lemma strip_head s c : head (strip s) = Some c -> isspace c = false.
Proof.
  unfold strip, rstrip. intros H.
  destruct (lstrip_suffix (rev (lstrip s))) as [pre Hpre].
  apply (f_equal (@rev N)) in Hpre. rewrite rev_involutive, rev_app_distr in Hpre.
  apply (lstrip_head s c). rewrite Hpre.
  destruct (rev (lstrip (rev (lstrip s)))); [discriminate|exact H].
Qed.

Lemma strip_last s c : last (strip s) = Some c -> isspace c = false.
Proof.
  unfold strip, rstrip. intros H.
  apply (lstrip_head (rev (lstrip s)) c).
  rewrite <- H, <- head_rev_last, rev_involutive. reflexivity.
Qed.

(** X15. What [load_feeds] reads from a feed file that is there: it returns
    and only adds its line to the log; every feed it returns is a
    non-empty text with no whitespace at either end that does not start
    with [#]. *)
Theorem load_feeds_present env w text :
  feeds_file w = Holds text ->
  exists feeds,
    load_feeds env w = (Returns feeds, add_log (INFO, LoadedFeeds (length feeds)) w)
    ∧ Forall (fun feed =>
                feed ≠ []
                ∧ (forall c, head feed = Some c -> isspace c = false ∧ c ≠ 35%N)
                ∧ (forall c, last feed = Some c -> isspace c = false)) feeds.
Proof.
  intros Hfile. unfold load_feeds, try_except, bind, read_feeds_file.
  rewrite Hfile. simpl. eexists. split; [reflexivity|].
  apply Forall_fmap, Forall_forall. intros line Hin.
  apply list_elem_of_filter in Hin as [[Ht Hs] _]. simpl. repeat split.
  - intros H. rewrite H in Ht. discriminate.
  - eapply strip_head; eassumption.
  - intros ->. destruct (strip line) as [|a r]; [discriminate|].
    injection H as ->. simpl in Hs. discriminate.
  - intros c. apply strip_last.
Qed.

Lemma load_feeds_present_witness :
  exists feeds,
    load_feeds Samples.offline Samples.commented_world
    = (Returns feeds,
       add_log (INFO, LoadedFeeds (length feeds)) Samples.commented_world)
    ∧ Forall (fun feed =>
                feed ≠ []
                ∧ (forall c, head feed = Some c -> isspace c = false ∧ c ≠ 35%N)
                ∧ (forall c, last feed = Some c -> isspace c = false)) feeds.
Proof.
  exact (load_feeds_present Samples.offline Samples.commented_world _ eq_refl).
Defined.

Example load_feeds_commented :
  fst (load_feeds Samples.offline Samples.commented_world)
  = Returns [lit "http://a.example/rss"; lit "http://b.example/rss"].
Proof. vm_compute. reflexivity. Qed.

(* ===================================================================== *)
(** ** What the steps of a cycle leave alone *)
(* ===================================================================== *)

Section Preserves.

Context {X : Type} (f : World -> X).

Lemma preserves_ret {A} (a : A) : preserves f (ret a).
Proof. intros w. reflexivity. Qed.

Lemma preserves_raise {A} (e : exn) : preserves f (@raise A e).
Proof. intros w. reflexivity. Qed.

Lemma preserves_bind {A B} (m : M A) (k : A -> M B) :
  preserves f m -> (forall a, preserves f (k a)) -> preserves f (bind m k).
Proof.
  intros Hm Hk w. unfold bind.
  specialize (Hm w). destruct (m w) as [[a|e] w1]; simpl in *.
  - rewrite Hk. exact Hm.
  - exact Hm.
Qed.

Lemma preserves_try_except {A} (body : M A) handler :
  preserves f body ->
  (forall e, match handler e with Some h => preserves f h | None => True end) ->
  preserves f (try_except body handler).
Proof.
  intros Hb Hh w. unfold try_except.
  specialize (Hb w). destruct (body w) as [[a|e] w1]; simpl in *; [exact Hb|].
  specialize (Hh e). destruct (handler e) as [h|]; simpl; [|exact Hb].
  rewrite Hh. exact Hb.
Qed.

Lemma preserves_for_each {A} (l : list A) (body : A -> M unit) :
  (forall x, x ∈ l -> preserves f (body x)) -> preserves f (for_each l body).
Proof.
  induction l as [|x l IH]; intros Hb; simpl.
  - apply preserves_ret.
  - apply preserves_bind.
    + apply Hb. left.
    + intros _. apply IH. intros y Hy. apply Hb. right. exact Hy.
Qed.

Lemma preserves_modify (g : World -> World) :
  (forall w, f (g w) = f w) -> preserves f (modify g).
Proof. intros Hg w. apply Hg. Qed.

Lemma preserves_pure {A} (m : M A) : pure m -> preserves f m.
Proof. intros Hm w. rewrite Hm. reflexivity. Qed.

End Preserves.

Lemma pure_thread_of env topic : pure (thread_of env topic).
Proof. intros w. reflexivity. Qed.

Lemma pure_entry_id_of entry : pure (entry_id_of entry).
Proof. intros w. reflexivity. Qed.

Lemma pure_getitem feed : pure (getitem feed).
Proof. intros w. unfold getitem. destruct (sent_items w !! feed); reflexivity. Qed.

Lemma pure_global name : pure (global name).
Proof. intros w. unfold global. case_bool_decide; reflexivity. Qed.

Lemma pure_read_feeds_file : pure read_feeds_file.
Proof. intros w. unfold read_feeds_file. destruct (feeds_file w); reflexivity. Qed.

(** Breaks a goal [preserves f m] along the structure of [m]; what is
    left are the steps that change the world. *)
Ltac preserves_step :=
  match goal with
  | |- preserves _ (bind _ _) => apply preserves_bind
  | |- preserves _ (try_except _ _) => apply preserves_try_except
  | |- preserves _ (ret _) => apply preserves_ret
  | |- preserves _ (raise _) => apply preserves_raise
  | |- preserves _ (thread_of _ _) => apply preserves_pure, pure_thread_of
  | |- preserves _ (entry_id_of _) => apply preserves_pure, pure_entry_id_of
  | |- preserves _ (getitem _) => apply preserves_pure, pure_getitem
  | |- preserves _ (global _) => apply preserves_pure, pure_global
  | |- preserves _ read_feeds_file => apply preserves_pure, pure_read_feeds_file
  | |- preserves _ (identify_new _ _ _) => apply preserves_pure, identify_new_pure
  | |- preserves _ get => intros ?; reflexivity
  | |- preserves _ (match ?x with _ => _ end) => destruct x
  | |- preserves _ (if ?b then _ else _) => destruct b
  | |- match (if ?b then _ else _) with _ => _ end => destruct b
  | |- forall _, _ => intro
  | |- True => exact I
  end.

(** The steps of [send_single_article] do not sleep. *)
Lemma slept_logger l m : preserves slept (logger l m).
Proof. intros w. reflexivity. Qed.

Lemma slept_bot_call env c : preserves slept (bot_call env c).
Proof.
  intros w. unfold bot_call. destruct (bot_answer env (clock w) c); reflexivity.
Qed.

Lemma slept_send_single_article config env chat entry feed_title topic :
  preserves slept (send_single_article config env chat entry feed_title topic).
Proof.
  unfold send_single_article. repeat preserves_step;
    first [apply slept_logger | apply slept_bot_call].
Qed.

(* ===================================================================== *)
(** ** Sending *)
(* ===================================================================== *)

(** X12. [send_telegram_message] never raises. It returns True exactly when
    the topic identifier converts and the destination accepts the
    message; a topic identifier that is not a number is caught like a
    failure of the destination, and then no call is made at all. *)
Theorem send_telegram_message_outcome config env chat text topic w :
  fst (send_telegram_message config env chat text topic w)
  = Returns
      match thread_value env topic with
      | Returns thread =>
          accepted (bot_answer env (clock w)
                      (send_message text None
                         {| chat_id := chat;
                            disable_notification := DISABLE_NOTIFICATION config;
                            message_thread_id := thread |}))
      | Raises _ => false
      end
  ∧ new_bot_calls (send_telegram_message config env chat text topic) w
    = match thread_value env topic with
      | Returns thread =>
          [(send_message text None
              {| chat_id := chat;
                 disable_notification := DISABLE_NOTIFICATION config;
                 message_thread_id := thread |},
            bot_answer env (clock w)
              (send_message text None
                 {| chat_id := chat;
                    disable_notification := DISABLE_NOTIFICATION config;
                    message_thread_id := thread |}))]
      | Raises _ => []
      end.
Proof.
  unfold new_bot_calls, send_telegram_message, try_except, bind, thread_of,
    bot_call, logger, modify, ret.
  cbn [is_Exception].
  destruct (thread_value env topic) as [thread|e]; cbv beta iota zeta.
  - destruct (bot_answer env (clock w) _) as [e|]; cbn;
      rewrite drop_app_length; split; reflexivity.
  - cbn. rewrite drop_all. split; reflexivity.
Qed.

(** With a topic identifier that is not a number, [send_single_article]
    raises before it calls the destination. *)
Lemma send_single_article_bad_topic config env chat entry feed_title topic e w :
  thread_value env topic = Raises e ->
  send_single_article config env chat entry feed_title topic w = (Raises e, w).
Proof.
  intros H. unfold send_single_article, bind, thread_of. rewrite H. reflexivity.
Qed.

(** X10. Without an image ([extract_image] gives null or the empty string),
    [send_single_article] makes one call, the text message, and returns
    what became of it: there is no second attempt. *)
Theorem text_when_no_image config env chat entry feed_title topic w thread :
  usable_image (extract_image entry) = None ->
  thread_value env topic = Returns thread ->
  fst (send_single_article config env chat entry feed_title topic w)
  = Returns (accepted (bot_answer env (clock w)
                         (text_call config env chat entry feed_title thread)))
  ∧ new_bot_calls (send_single_article config env chat entry feed_title topic) w
    = [(text_call config env chat entry feed_title thread,
        bot_answer env (clock w) (text_call config env chat entry feed_title thread))].
Proof.
  intros Himg Hthread.
  unfold new_bot_calls, send_single_article, bind, thread_of.
  rewrite Hthread, Himg.
  unfold try_except, bind, bot_call, logger, modify, ret.
  fold (text_call config env chat entry feed_title thread).
  cbn [is_Exception].
  destruct (bot_answer env (clock w) (text_call _ _ _ _ _ _)) as [e1|] eqn:H1;
    cbn -[text_call]; rewrite drop_app_length; split; reflexivity.
Qed.

Lemma text_when_no_image_witness :
  fst (send_single_article Samples.cfg Samples.deaf_env (Some (lit "chat"))
         Samples.E1 (lit "Example") None Samples.fresh_world)
  = Returns false
  ∧ new_bot_calls (send_single_article Samples.cfg Samples.deaf_env
                     (Some (lit "chat")) Samples.E1 (lit "Example") None)
      Samples.fresh_world
    = [(text_call Samples.cfg Samples.deaf_env (Some (lit "chat")) Samples.E1
          (lit "Example") None,
        Some LibraryError)].
Proof.
  exact (text_when_no_image Samples.cfg Samples.deaf_env (Some (lit "chat"))
           Samples.E1 (lit "Example") None Samples.fresh_world None
           eq_refl eq_refl).
Defined.

(** X11. [send_single_article] calls the destination at most twice, and it
    returns True exactly when the destination accepted one of its
    calls. *)
Theorem send_single_article_reports config env chat entry feed_title topic w :
  length (new_bot_calls (send_single_article config env chat entry feed_title topic) w)
  <= 2
  ∧ (fst (send_single_article config env chat entry feed_title topic w) = Returns true
     <-> exists call,
           (call, None)
           ∈ new_bot_calls (send_single_article config env chat entry feed_title topic) w).
Proof.
  unfold new_bot_calls, send_single_article, bind, thread_of.
  destruct (thread_value env topic) as [thread|e]; cbv beta iota zeta.
  - unfold try_except, bind, bot_call, logger, modify, ret. cbn [is_Exception].
    destruct (usable_image (extract_image entry)) as [url|]; cbv beta iota zeta;
      repeat match goal with
      | |- context [bot_answer ?x ?y ?z] =>
          let a := fresh "a" in
          destruct (bot_answer x y z) as [a|]; cbn
      end;
      rewrite <- ?app_assoc, drop_app_length; simpl;
      (split; [lia|]); split;
      try discriminate;
      try (intros _; eexists; repeat first [left; reflexivity | right]; fail);
      intros [call Hin];
      repeat match goal with
      | H : _ ∈ _ :: _ |- _ => apply elem_of_cons in H as [H|H]; [discriminate|]
      | H : _ ∈ [] |- _ => inversion H
      end.
  - simpl. rewrite drop_all. simpl. split; [lia|]. split; [discriminate|].
    intros [call Hin]. inversion Hin.
Qed.

(* ===================================================================== *)
(** ** A cycle that has nothing to do *)
(* ===================================================================== *)

(** X8. When [load_feeds] yields no feed (a feed file that holds only blank
    lines and comments, or one that cannot be read), [check_feeds]
    returns the store it loaded: besides binding that store it only
    writes two lines to the log, the one of [load_feeds] and its own
    warning. The network and the disk are not called. *)
Theorem check_feeds_nothing_to_check config env w loaded :
  fst (load_sent_items w) = Returns loaded ->
  fst (load_feeds env w) = Returns [] ->
  exists line,
    check_feeds config env w
    = (Returns loaded,
       add_log (WARNING, NoFeedsToCheck)
         (add_log line (set_sent_items loaded w))).
Proof.
  intros Hload Hfeeds. unfold check_feeds. unfold bind at 1.
  pose proof (load_sent_items_pure w) as Hp.
  destruct (load_sent_items w) as [[s0|x] w0]; simpl in Hload, Hp;
    [|discriminate]. injection Hload as ->. subst w0.
  unfold bind at 1. unfold modify at 1. unfold bind at 1.
  revert Hfeeds. unfold load_feeds, try_except, bind, read_feeds_file.
  change (feeds_file (set_sent_items loaded w)) with (feeds_file w).
  destruct (feeds_file w) as [| |text].
  - intros H. vm_compute in H. discriminate.
  - intros _. eexists. reflexivity.
  - set (feeds := strip <$> filter _ (readlines text)).
    cbn [logger modify ret fst]. intros H. injection H as H. rewrite H.
    eexists. reflexivity.
Qed.

Lemma check_feeds_nothing_to_check_witness :
  exists line,
    check_feeds Samples.cfg Samples.three_feed_env Samples.idle_world
    = (Returns Samples.seen_store,
       add_log (WARNING, NoFeedsToCheck)
         (add_log line (set_sent_items Samples.seen_store Samples.idle_world))).
Proof.
  exact (check_feeds_nothing_to_check Samples.cfg Samples.three_feed_env
           Samples.idle_world Samples.seen_store eq_refl eq_refl).
Defined.

(* ===================================================================== *)
(** ** Every feed gets its turn *)
(* ===================================================================== *)

Lemma lstrip_id s :
  (forall c, head s = Some c -> isspace c = false) -> lstrip s = s.
Proof.
  destruct s as [|a s]; [reflexivity|]. intros H. simpl.
  rewrite (H a eq_refl). reflexivity.
Qed.

(** [strip] on a stripped text changes nothing. *)
Lemma strip_idempotent s : strip (strip s) = strip s.
Proof.
  unfold strip at 1. rewrite (lstrip_id (strip s)) by apply strip_head.
  unfold rstrip. rewrite lstrip_id; [apply rev_involutive|].
  intros c. rewrite head_rev_last. apply strip_last.
Qed.

Lemma load_feeds_set_sent_items env s w :
  load_feeds env (set_sent_items s w)
  = (fst (load_feeds env w), set_sent_items s (snd (load_feeds env w))).
Proof.
  unfold load_feeds, try_except, bind, read_feeds_file.
  change (feeds_file (set_sent_items s w)) with (feeds_file w).
  destruct (feeds_file w); reflexivity.
Qed.

(** The feeds that [load_feeds] returns are not blank. *)
Lemma load_feeds_not_blank env w feeds :
  fst (load_feeds env w) = Returns feeds ->
  Forall (fun feed => truthy (strip feed) = true) feeds.
Proof.
  unfold load_feeds, try_except, bind, read_feeds_file.
  destruct (feeds_file w) as [| |text].
  - intros H. vm_compute in H. discriminate.
  - intros [= <-]. constructor.
  - set (feeds' := strip <$> filter _ (readlines text)).
    cbn [logger modify ret fst]. intros H. injection H as <-.
    apply Forall_fmap, Forall_forall. intros line Hin.
    apply list_elem_of_filter in Hin as [[Ht _] _]. simpl.
    rewrite strip_idempotent. exact Ht.
Qed.

Lemma checked_feeds_add_log l m w :
  (forall feed, (l, m) ≠ (INFO, CheckingFeed feed)) ->
  checked_feeds (add_log (l, m) w) = checked_feeds w.
Proof.
  intros H. unfold checked_feeds. simpl. rewrite omap_app. simpl.
  destruct l, m; try apply app_nil_r. exfalso. eapply H. reflexivity.
Qed.

Lemma checked_logger l m :
  (forall feed, (l, m) ≠ (INFO, CheckingFeed feed)) ->
  preserves checked_feeds (logger l m).
Proof. intros H w. apply checked_feeds_add_log, H. Qed.

Lemma checked_bot_call env c : preserves checked_feeds (bot_call env c).
Proof.
  intros w. unfold bot_call. destruct (bot_answer env (clock w) c); reflexivity.
Qed.

Lemma checked_write_file {A} env (file : World -> File A) set_file content torn :
  (forall x w, log (set_file x w) = log w) ->
  preserves checked_feeds (write_file env file set_file content torn).
Proof.
  intros Hs w. unfold write_file, checked_feeds.
  destruct (file w); try reflexivity; destruct (disk_write env (clock w));
    simpl; rewrite ?Hs; reflexivity.
Qed.

(** Closes the steps of a goal [preserves checked_feeds m]. *)
Ltac checked_leaf :=
  first
    [ apply checked_logger; intros ?; discriminate
    | apply checked_bot_call
    | apply checked_write_file; reflexivity
    | apply preserves_modify; intros ?; reflexivity
    | intros ?; reflexivity ].

Lemma checked_load_feeds env : preserves checked_feeds (load_feeds env).
Proof. unfold load_feeds. repeat preserves_step; checked_leaf. Qed.

Lemma checked_send_single_article config env chat entry feed_title topic :
  preserves checked_feeds
    (send_single_article config env chat entry feed_title topic).
Proof. unfold send_single_article. repeat preserves_step; checked_leaf. Qed.

Lemma checked_deliver config env feed feed_title entry :
  preserves checked_feeds (deliver config env feed feed_title entry).
Proof.
  unfold deliver, append_item, save_sent_items, sleep.
  repeat preserves_step;
    first [apply checked_send_single_article | checked_leaf].
Qed.

Lemma checked_setdefault feed : preserves checked_feeds (setdefault feed).
Proof.
  intros w. unfold setdefault, modify. simpl.
  destruct (sent_items w !! feed); reflexivity.
Qed.

Lemma checked_check_feed config env feed :
  preserves checked_feeds (check_feed config env feed).
Proof.
  unfold check_feed.
  repeat preserves_step;
    first [ apply preserves_for_each; intros; apply checked_deliver
          | apply checked_setdefault
          | checked_leaf ].
Qed.

(** One turn of the loop over the feeds logs its feed and comes to its
    end, whatever happens to the feed. *)
Lemma checked_poll_feed config env feed w :
  checked_feeds (snd (poll_feed config env feed w))
  = checked_feeds w ++ (if truthy (strip feed) then [feed] else []).
Proof.
  unfold poll_feed. destruct (truthy (strip feed)); [|symmetry; apply app_nil_r].
  unfold bind, logger, modify. cbv beta iota.
  assert (Hp : preserves checked_feeds
                 (try_except (check_feed config env feed)
                    (fun e => if is_Exception e
                              then Some (logger ERROR (ErrorCheckingFeed feed e))
                              else None))).
  { repeat preserves_step; first [apply checked_check_feed | checked_leaf]. }
  rewrite Hp. unfold checked_feeds. simpl. rewrite omap_app. reflexivity.
Qed.

Lemma checked_poll_loop_body config env feeds : forall w,
  Forall (fun feed => truthy (strip feed) = true) feeds ->
  checked_feeds (snd (for_each feeds (poll_feed config env) w))
  = checked_feeds w ++ feeds.
Proof.
  induction feeds as [|feed feeds IH]; intros w Hall; simpl.
  - symmetry. apply app_nil_r.
  - inversion Hall as [|? ? Hf Hall']; subst. unfold bind.
    pose proof (checked_poll_feed config env feed w) as Hc.
    pose proof (poll_feed_returns config env feed w) as Hr.
    destruct (poll_feed config env feed w) as [[[]|e] w1]; simpl in Hc, Hr;
      [|discriminate].
    rewrite IH, Hc, Hf, <- app_assoc by assumption. reflexivity.
Qed.

(** X1. Isolation of the feeds: [check_feeds] takes up every feed that
    [load_feeds] returned, in the order of the feed file, whatever the
    feeds before it did (a fetch that fails, an entry without
    identifier, a delivery or a write that fails). *)
Theorem every_feed_is_checked config env w loaded feeds :
  fst (load_sent_items w) = Returns loaded ->
  fst (load_feeds env w) = Returns feeds ->
  checked_feeds (snd (check_feeds config env w)) = checked_feeds w ++ feeds.
Proof.
  intros Hload Hfeeds. unfold check_feeds. unfold bind at 1.
  pose proof (load_sent_items_pure w) as Hp.
  destruct (load_sent_items w) as [[s0|x] w0]; simpl in Hload, Hp;
    [|discriminate]. injection Hload as ->. subst w0.
  unfold bind at 1. unfold modify at 1. unfold bind at 1.
  rewrite load_feeds_set_sent_items.
  pose proof (checked_load_feeds env w) as Hc.
  pose proof (load_feeds_not_blank env w feeds Hfeeds) as Hnb.
  destruct (load_feeds env w) as [r w2]. simpl in Hfeeds, Hc. subst r.
  cbv beta iota. cbn [fst snd].
  destruct feeds as [|f0 fs].
  - unfold bind, logger, modify, get, ret. cbn [snd].
    rewrite checked_feeds_add_log by (intros ?; discriminate).
    rewrite app_nil_r. exact Hc.
  - unfold bind at 1.
    pose proof (checked_poll_loop_body config env (f0 :: fs)
                  (set_sent_items loaded w2) Hnb) as Hl.
    destruct (for_each (f0 :: fs) (poll_feed config env) (set_sent_items loaded w2))
      as [[[]|x] w3]; simpl in Hl; unfold bind, get, ret; cbn [snd];
      rewrite Hl; f_equal; exact Hc.
Qed.

Lemma every_feed_is_checked_witness :
  checked_feeds (snd (check_feeds Samples.cfg Samples.offline Samples.commented_world))
  = checked_feeds Samples.commented_world
    ++ [lit "http://a.example/rss"; lit "http://b.example/rss"].
Proof.
  exact (every_feed_is_checked Samples.cfg Samples.offline Samples.commented_world
           ∅ [lit "http://a.example/rss"; lit "http://b.example/rss"]
           eq_refl eq_refl).
Defined.

(* ===================================================================== *)
(** ** A topic identifier that is not a number *)
(* ===================================================================== *)

Lemma traffic_write_file {A} env (file : World -> File A) set_file content torn :
  (forall x w, traffic (set_file x w) = traffic w) ->
  preserves traffic (write_file env file set_file content torn).
Proof.
  intros Hs w. unfold write_file.
  destruct (file w); try reflexivity; destruct (disk_write env (clock w));
    simpl; rewrite ?Hs; reflexivity.
Qed.

Lemma traffic_setdefault feed : preserves traffic (setdefault feed).
Proof.
  intros w. unfold setdefault, modify. simpl.
  destruct (sent_items w !! feed); reflexivity.
Qed.

Lemma traffic_deliver_bad_topic config env feed feed_title entry e :
  thread_value env (TELEGRAM_TOPIC_ID config) = Raises e ->
  preserves traffic (deliver config env feed feed_title entry).
Proof.
  intros Ht w. unfold deliver, bind, entry_id_of, logger, modify.
  destruct (entry_id_value entry); [|reflexivity].
  rewrite (send_single_article_bad_topic _ _ _ _ _ _ e) by exact Ht.
  reflexivity.
Qed.

(** Closes the steps of a goal [preserves traffic m]. *)
Ltac traffic_leaf :=
  first
    [ apply traffic_setdefault
    | apply traffic_write_file; reflexivity
    | apply preserves_pure, load_sent_items_pure
    | apply preserves_modify; intros ?; reflexivity
    | intros ?; reflexivity ].

Lemma traffic_poll_feed_bad_topic config env e feed :
  thread_value env (TELEGRAM_TOPIC_ID config) = Raises e ->
  preserves traffic (poll_feed config env feed).
Proof.
  intros Ht. unfold poll_feed, check_feed.
  repeat preserves_step;
    first [ apply preserves_for_each; intros;
            eapply traffic_deliver_bad_topic; exact Ht
          | traffic_leaf ].
Qed.

Lemma traffic_check_feeds_bad_topic config env e :
  thread_value env (TELEGRAM_TOPIC_ID config) = Raises e ->
  preserves traffic (check_feeds config env).
Proof.
  intros Ht. unfold check_feeds, load_feeds.
  repeat preserves_step;
    first [ apply preserves_for_each; intros;
            eapply traffic_poll_feed_bad_topic; exact Ht
          | traffic_leaf ].
Qed.

(** X2. A topic identifier that is set and is not a number stops every
    delivery: [send_single_article] raises at its conversion, the
    exception ends the processing of each feed at its first new entry,
    and the cycle calls the destination for no entry, records nothing
    and leaves the history file as it is. *)
Theorem bad_topic_blocks_delivery config env w loaded e :
  thread_value env (TELEGRAM_TOPIC_ID config) = Raises e ->
  fst (load_sent_items w) = Returns loaded ->
  bot_calls (snd (check_feeds config env w)) = bot_calls w
  ∧ deliveries (snd (check_feeds config env w)) = deliveries w
  ∧ history_file (snd (check_feeds config env w)) = history_file w
  ∧ forall feed,
      history (sent_items (snd (check_feeds config env w))) feed
      = history loaded feed.
Proof.
  intros Ht Hload.
  pose proof (traffic_check_feeds_bad_topic config env e Ht w) as Htr.
  unfold traffic in Htr. injection Htr as Hb Hd.
  destruct (check_feeds_in_cycle config env w loaded Hload)
    as [[ds [H1 _ H3 _ H5]] _].
  rewrite Hd in H1. rewrite <- (app_nil_r (deliveries w)) in H1 at 1.
  apply app_inv_head in H1. subst ds.
  repeat split; auto.
  intros feed. rewrite H3. apply app_nil_r.
Qed.

Lemma bad_topic_blocks_delivery_witness :
  bot_calls (snd (check_feeds Samples.cfg_bad_topic Samples.three_feed_env
                    Samples.fresh_world)) = []
  ∧ deliveries (snd (check_feeds Samples.cfg_bad_topic Samples.three_feed_env
                       Samples.fresh_world)) = [].
Proof.
  destruct (bad_topic_blocks_delivery Samples.cfg_bad_topic Samples.three_feed_env
              Samples.fresh_world ∅ ValueError eq_refl eq_refl) as (H1 & H2 & _).
  split; [exact H1 | exact H2].
Defined.

(* ===================================================================== *)
(** ** The record of the feed that is processed, and the others *)
(* ===================================================================== *)

Lemma lookup_stable {A} (m : M A) (feed : str) :
  stable m -> preserves (fun w => sent_items w !! feed) m.
Proof.
  intros Hm w. destruct (view_eq _ _ (Hm w)) as (-> & _). reflexivity.
Qed.

Lemma lookup_write_history env (feed : str) content torn :
  preserves (fun w => sent_items w !! feed)
    (write_file env history_file set_history_file content torn).
Proof.
  intros w. unfold write_file.
  destruct (history_file w); try reflexivity;
    destruct (disk_write env (clock w)); reflexivity.
Qed.

Lemma lookup_deliver config env feed feed_title entry (other : str) :
  other ≠ feed ->
  preserves (fun w => sent_items w !! other)
    (deliver config env feed feed_title entry).
Proof.
  intros Hne. unfold deliver, append_item, save_sent_items, sleep.
  repeat preserves_step;
    first [ apply lookup_stable, stable_send_single_article
          | apply lookup_write_history
          | apply preserves_modify; intros ?; simpl;
            rewrite ?lookup_insert_ne by congruence; reflexivity
          | intros ?; reflexivity ].
Qed.

(** X5. The history is kept by feed: processing one feed leaves the record
    of every other feed as it is, present or absent. *)
Theorem other_feeds_untouched config env feed other w :
  other ≠ feed ->
  sent_items (snd (check_feed config env feed w)) !! other = sent_items w !! other.
Proof.
  intros Hne. revert w.
  change (preserves (fun w => sent_items w !! other) (check_feed config env feed)).
  unfold check_feed.
  repeat preserves_step;
    first [ apply preserves_for_each; intros; apply lookup_deliver, Hne
          | intros w; unfold setdefault, modify; simpl;
            destruct (sent_items w !! feed); simpl;
            rewrite ?lookup_insert_ne by congruence; reflexivity
          | apply preserves_modify; intros ?; reflexivity
          | intros ?; reflexivity ].
Qed.

Lemma other_feeds_untouched_witness :
  sent_items (snd (check_feed Samples.cfg Samples.three_feed_env
                     (lit "http://other.example/rss")
                     (set_sent_items Samples.seen_store Samples.fresh_world)))
    !! Samples.feed_url
  = sent_items (set_sent_items Samples.seen_store Samples.fresh_world)
      !! Samples.feed_url.
Proof.
  apply (other_feeds_untouched Samples.cfg Samples.three_feed_env
           (lit "http://other.example/rss") Samples.feed_url).
  discriminate.
Defined.

Lemma deliver_keeps_key config env feed feed_title entry :
  keeps (fun w => is_Some (sent_items w !! feed))
    (deliver config env feed feed_title entry).
Proof.
  intros w [l Hl]. destruct (entry_id_value entry) as [i|x] eqn:Hi.
  - pose proof (deliver_cases config env feed feed_title entry i l w Hi Hl) as Hc.
    simpl in Hc.
    destruct Hc as [[Hv _] | [(Hs & _) | (Hs & _)]].
    + apply view_eq in Hv as (Hs & _). rewrite Hs, Hl. eauto.
    + rewrite Hs, Hl. eauto.
    + rewrite Hs, lookup_insert_eq. eauto.
  - rewrite (deliver_no_id config env feed feed_title entry x w Hi). simpl. eauto.
Qed.

(** X6. A feed gets its record, empty at first, when its fetch returns
    entries; a fetch that fails or returns no entry leaves the store as
    it is, so such a feed gets no record. *)
Theorem feed_record_created config env feed w :
  match feedparser_parse env (clock w) feed with
  | Returns f =>
      match entries f with
      | [] => sent_items (snd (check_feed config env feed w)) = sent_items w
      | _ :: _ => is_Some (sent_items (snd (check_feed config env feed w)) !! feed)
      end
  | Raises _ => sent_items (snd (check_feed config env feed w)) = sent_items w
  end.
Proof.
  unfold check_feed, bind.
  destruct (feedparser_parse env (clock w) feed) as [f|x]; cbv beta iota;
    [|reflexivity].
  destruct (entries f) as [|e0 es] eqn:He; [reflexivity|].
  pose proof (setdefault_present feed (tick w)) as Hp.
  assert (Hsd : setdefault feed (tick w)
                = (Returns tt, snd (setdefault feed (tick w)))) by reflexivity.
  remember (snd (setdefault feed (tick w))) as w2 eqn:Ew2. clear Ew2.
  rewrite Hsd. cbv beta iota.
  pose proof (identify_new_pure feed (e0 :: es) [] w2) as Hpure.
  destruct (identify_new feed (e0 :: es) [] w2) as [[r|x] w3];
    cbn [fst snd] in Hpure; subst w3; cbv beta iota; [|exact Hp].
  apply (keeps_for_each (fun w => is_Some (sent_items w !! feed))); [|exact Hp].
  intros e _. apply deliver_keeps_key.
Qed.

Lemma entry_id_value_raises entry :
  attr_id entry = None -> attr_link entry = None ->
  entry_id_value entry = Raises (AttributeError "link").
Proof. unfold entry_id_value. intros -> ->. reflexivity. Qed.

Lemma identify_new_raises feed es : forall acc w l,
  sent_items w !! feed = Some l ->
  Exists (fun e => attr_id e = None ∧ attr_link e = None) es ->
  fst (identify_new feed es acc w) = Raises (AttributeError "link").
Proof.
  induction es as [|e es IH]; intros acc w l Hl Hex; [inversion Hex|].
  simpl. unfold bind, entry_id_of, getitem. rewrite Hl.
  destruct (entry_id_value e) as [i|x] eqn:Hi; simpl.
  - apply (IH _ w l Hl). inversion Hex as [? ? [H1 H2]|]; subst; [|assumption].
    rewrite (entry_id_value_raises e H1 H2) in Hi. discriminate.
  - unfold entry_id_value in Hi.
    destruct (attr_id e); [discriminate|].
    destruct (attr_link e); [discriminate|]. congruence.
Qed.

(** X3. One entry with neither identifier nor link stops its whole feed:
    the loop that looks for new entries raises, and of the feed nothing
    is sent, whatever its other entries are. The world is the one the
    fetch and the creation of the record left. *)
Theorem entry_without_id_blocks_feed config env feed w f :
  feedparser_parse env (clock w) feed = Returns f ->
  Exists (fun e => attr_id e = None ∧ attr_link e = None) (entries f) ->
  check_feed config env feed w
  = (Raises (AttributeError "link"), snd (setdefault feed (tick w))).
Proof.
  intros Hparse Hex. unfold check_feed, bind. rewrite Hparse. cbv beta iota.
  destruct (entries f) as [|e0 es] eqn:He; [inversion Hex|].
  pose proof (setdefault_present feed (tick w)) as [l Hl].
  assert (Hsd : setdefault feed (tick w)
                = (Returns tt, snd (setdefault feed (tick w)))) by reflexivity.
  remember (snd (setdefault feed (tick w))) as w2 eqn:Ew2. clear Ew2.
  rewrite Hsd. cbv beta iota.
  pose proof (identify_new_pure feed (e0 :: es) [] w2) as Hpure.
  pose proof (identify_new_raises feed (e0 :: es) [] w2 l Hl Hex) as Hr.
  destruct (identify_new feed (e0 :: es) [] w2) as [[r|x] w3];
    cbn [fst snd] in Hpure, Hr; subst w3; [discriminate|].
  injection Hr as ->. reflexivity.
Qed.

Lemma entry_without_id_blocks_feed_witness :
  check_feed Samples.cfg Samples.anonymous_feed_env Samples.feed_url
    Samples.fresh_world
  = (Raises (AttributeError "link"),
     snd (setdefault Samples.feed_url (tick Samples.fresh_world))).
Proof.
  apply (entry_without_id_blocks_feed Samples.cfg Samples.anonymous_feed_env
           Samples.feed_url Samples.fresh_world
           {| feed_title_attr := None;
              entries := [Samples.E3; Samples.E2; Samples.anonymous_entry] |}
           eq_refl).
  do 2 apply Exists_cons_tl. apply Exists_cons_hd. split; reflexivity.
Defined.

(* ===================================================================== *)
(** ** What is on disk after a delivery *)
(* ===================================================================== *)

Lemma persisted_loop config env feed feed_title l : forall w,
  is_Some (sent_items w !! feed) ->
  fst (for_each l (deliver config env feed feed_title) w) = Returns tt ->
  exists ds,
    deliveries (snd (for_each l (deliver config env feed feed_title) w))
    = deliveries w ++ ds
    ∧ ((Forall (fun d => delivery_ok d = false) ds
        ∧ sent_items (snd (for_each l (deliver config env feed feed_title) w))
          = sent_items w
        ∧ history_file (snd (for_each l (deliver config env feed feed_title) w))
          = history_file w)
       ∨ history_file (snd (for_each l (deliver config env feed feed_title) w))
         = Holds (Json (sent_items
                          (snd (for_each l (deliver config env feed feed_title) w))))).
Proof.
  induction l as [|e l IH]; intros w [h Hh]; simpl.
  - intros _. exists []. rewrite app_nil_r. split; [reflexivity|]. left. auto.
  - unfold bind. destruct (entry_id_value e) as [i|x] eqn:Hi.
    + pose proof (deliver_cases config env feed feed_title e i h w Hi Hh) as Hc.
      pose proof (deliver_keeps_key config env feed feed_title e w
                    (ex_intro _ h Hh)) as Hk.
      simpl in Hc.
      destruct (deliver config env feed feed_title e w) as [[[]|y] w1];
        simpl in Hc, Hk; [|discriminate].
      intros Hr. destruct (IH w1 Hk Hr) as (ds & H1 & H2).
      destruct Hc as [[_ Hc] | [(Hs & Hd & Hf & _) | (Hs & Hd & Hf)]];
        [discriminate | |].
      * eexists (_ :: ds). split; [rewrite H1, Hd, <- app_assoc; reflexivity|].
        destruct H2 as [(Ha & Hs' & Hf') | H2]; [left|right; exact H2].
        split; [constructor; [reflexivity|exact Ha]|].
        split; congruence.
      * eexists (_ :: ds). split; [rewrite H1, Hd, <- app_assoc; reflexivity|].
        right. destruct H2 as [(_ & Hs' & Hf') | H2]; [|exact H2].
        rewrite Hf', Hs', Hs. apply Hf. reflexivity.
    + rewrite (deliver_no_id config env feed feed_title e x w Hi). discriminate.
Qed.

(** X4. Persistence follows the deliveries: when the processing of a feed
    comes to its end and one of its deliveries succeeded, the history
    file holds exactly the store that [check_feeds] has in memory. *)
Theorem persisted_after_success config env feed w ds :
  fst (check_feed config env feed w) = Returns tt ->
  deliveries (snd (check_feed config env feed w)) = deliveries w ++ ds ->
  Exists (fun d => delivery_ok d = true) ds ->
  history_file (snd (check_feed config env feed w))
  = Holds (Json (sent_items (snd (check_feed config env feed w)))).
Proof.
  unfold check_feed, bind.
  destruct (feedparser_parse env (clock w) feed) as [f|x]; cbv beta iota;
    [|discriminate].
  destruct (entries f) as [|e0 es] eqn:He.
  - intros _ Hd Hex. simpl in Hd.
    rewrite <- (app_nil_r (deliveries w)) in Hd at 1.
    apply app_inv_head in Hd. subst ds. inversion Hex.
  - pose proof (setdefault_present feed (tick w)) as Hp.
    assert (Hd0 : deliveries (snd (setdefault feed (tick w))) = deliveries w).
    { unfold setdefault, modify. simpl.
      destruct (sent_items w !! feed); reflexivity. }
    assert (Hsd : setdefault feed (tick w)
                  = (Returns tt, snd (setdefault feed (tick w)))) by reflexivity.
    remember (snd (setdefault feed (tick w))) as w2 eqn:Ew2. clear Ew2.
    rewrite Hsd. cbv beta iota.
    pose proof (identify_new_pure feed (e0 :: es) [] w2) as Hpure.
    destruct (identify_new feed (e0 :: es) [] w2) as [[r|x] w3];
      cbn [fst snd] in Hpure; subst w3; cbv beta iota; [|discriminate].
    intros Hr Hd Hex.
    destruct (persisted_loop config env feed (default feed (feed_title_attr f))
                (rev r) w2 Hp Hr) as (ds' & H1 & H2).
    rewrite H1, Hd0 in Hd. apply app_inv_head in Hd. subst ds'.
    destruct H2 as [(Ha & _) | H2]; [|exact H2].
    exfalso. apply Exists_exists in Hex as (d & Hin & Hok).
    rewrite Forall_forall in Ha. rewrite (Ha d Hin) in Hok. discriminate.
Qed.

Lemma persisted_after_success_witness :
  history_file (snd (check_feed Samples.cfg Samples.three_feed_env Samples.feed_url
                       Samples.fresh_world))
  = Holds (Json (sent_items (snd (check_feed Samples.cfg Samples.three_feed_env
                                    Samples.feed_url Samples.fresh_world)))).
Proof.
  apply (persisted_after_success Samples.cfg Samples.three_feed_env Samples.feed_url
           Samples.fresh_world
           (deliveries (snd (check_feed Samples.cfg Samples.three_feed_env
                               Samples.feed_url Samples.fresh_world)))).
  - vm_compute. reflexivity.
  - reflexivity.
  - vm_compute. apply Exists_cons_hd. reflexivity.
Defined.

Lemma check_feeds_returned_store config env w s w' :
  check_feeds config env w = (Returns s, w') -> s = sent_items w'.
Proof.
  intros Hcf.
  destruct (load_sent_items w) as [[loaded|x] w0] eqn:Hload.
  - eapply (check_feeds_in_cycle_eq config env w loaded); [exact Hcf| |reflexivity].
    rewrite Hload. reflexivity.
  - unfold check_feeds in Hcf. unfold bind at 1 in Hcf. rewrite Hload in Hcf.
    discriminate.
Qed.

(** One round of the main loop that comes to its end. *)
Lemma poll_loop_round config env n w w' :
  poll_loop config env (S n) w = (Returns tt, w') ->
  exists w1 w2,
    check_feeds config env w = (Returns (sent_items w1), w1)
    ∧ save_sent_items env (sent_items w1) w1 = (Returns tt, w2)
    ∧ poll_loop config env n
        (add_sleep (CHECK_INTERVAL config)
           (add_log (INFO, NextCheckIn (CHECK_INTERVAL config)) w2))
      = (Returns tt, w').
Proof.
  intros H. simpl in H. unfold bind at 1 in H.
  destruct (check_feeds config env w) as [[s|x] w1] eqn:Hcf; [|discriminate].
  pose proof (check_feeds_returned_store config env w s w1 Hcf) as ->.
  unfold bind at 1 in H.
  destruct (save_sent_items env (sent_items w1) w1) as [[[]|x] w2] eqn:Hsave;
    [|discriminate].
  exists w1, w2. split; [reflexivity|]. split; [exact Hsave|]. exact H.
Qed.

(** X9. The save at the end of a round: when the main loop has come
    through its rounds, the history file holds the store of the last
    round. *)
Theorem rounds_end_persisted config env n : forall w,
  fst (poll_loop config env (S n) w) = Returns tt ->
  history_file (snd (poll_loop config env (S n) w))
  = Holds (Json (sent_items (snd (poll_loop config env (S n) w)))).
Proof.
  induction n as [|n IH]; intros w Hr;
    destruct (poll_loop config env _ w) as [r w'] eqn:Hp; simpl in Hr; subst r;
    destruct (poll_loop_round config env _ w w' Hp) as (w1 & w2 & _ & Hsave & Hrest).
  - injection Hrest as <-. simpl.
    pose proof (save_sent_items_cases env (sent_items w1) w1) as (Hs & _ & _ & Hf).
    rewrite Hsave in Hs, Hf. simpl in Hs, Hf. rewrite Hf, Hs by reflexivity.
    reflexivity.
  - specialize (IH _ (f_equal fst Hrest)). rewrite Hrest in IH. exact IH.
Qed.

Lemma rounds_end_persisted_witness :
  history_file (snd (poll_loop Samples.cfg Samples.three_feed_env 2 Samples.fresh_world))
  = Holds (Json (sent_items
                   (snd (poll_loop Samples.cfg Samples.three_feed_env 2
                           Samples.fresh_world)))).
Proof.
  apply (rounds_end_persisted Samples.cfg Samples.three_feed_env 1 Samples.fresh_world).
  vm_compute. reflexivity.
Defined.

(* ===================================================================== *)
(** ** The pause between two messages *)
(* ===================================================================== *)

Lemma deliver_pause config env feed feed_title entry w :
  fst (deliver config env feed feed_title entry w) = Returns tt ->
  exists d,
    deliveries (snd (deliver config env feed feed_title entry w))
    = deliveries w ++ [d]
    ∧ slept (snd (deliver config env feed feed_title entry w))
      = slept w + (if delivery_ok d then 2 else 0).
Proof.
  unfold deliver, bind, entry_id_of, logger, modify.
  destruct (entry_id_value entry) as [i|x]; [|discriminate].
  set (w1 := add_log _ w).
  pose proof (stable_send_single_article config env (TELEGRAM_CHAT_ID config)
                entry feed_title (TELEGRAM_TOPIC_ID config) w1) as Hv.
  pose proof (slept_send_single_article config env (TELEGRAM_CHAT_ID config)
                entry feed_title (TELEGRAM_TOPIC_ID config) w1) as Hz.
  destruct (send_single_article _ _ _ _ _ _ w1) as [[ok|e] w2];
    [|discriminate].
  simpl in Hv, Hz. apply view_eq in Hv as (_ & Hd2 & _). simpl in Hd2.
  change (slept w1) with (slept w) in Hz.
  destruct ok.
  - unfold append_item, bind, getitem, modify, get, save_sent_items, write_file,
      sleep, modify. simpl.
    destruct (sent_items w2 !! feed); simpl; [|discriminate].
    destruct (history_file w2); simpl; try discriminate;
      destruct (disk_write env (clock w2)); simpl; try discriminate;
      intros _; eexists; (split; [rewrite Hd2; reflexivity|]);
      simpl; rewrite Hz; reflexivity.
  - simpl. intros _. eexists. split; [rewrite Hd2; reflexivity|].
    simpl. rewrite Hz. lia.
Qed.

Lemma pause_loop config env feed feed_title l : forall w,
  fst (for_each l (deliver config env feed feed_title) w) = Returns tt ->
  exists ds,
    deliveries (snd (for_each l (deliver config env feed feed_title) w))
    = deliveries w ++ ds
    ∧ slept (snd (for_each l (deliver config env feed feed_title) w))
      = slept w + 2 * length (filter (fun d => delivery_ok d = true) ds).
Proof.
  induction l as [|e l IH]; intros w; simpl.
  - intros _. exists []. rewrite app_nil_r. simpl. split; [reflexivity|lia].
  - unfold bind.
    pose proof (deliver_pause config env feed feed_title e w) as Hd.
    destruct (deliver config env feed feed_title e w) as [[[]|y] w1];
      [|discriminate].
    destruct (Hd eq_refl) as (d & Hd1 & Hz1). simpl in Hd1, Hz1.
    intros Hr. destruct (IH w1 Hr) as (ds & H1 & H2).
    exists (d :: ds). split; [rewrite H1, Hd1, <- app_assoc; reflexivity|].
    rewrite H2, Hz1, filter_cons.
    destruct (delivery_ok d); case_decide; simpl; try congruence; lia.
Qed.

(** X7. Rate limit: when the processing of a feed comes to its end, the
    program has slept two seconds for each delivery that succeeded, and
    not at all for the others. *)
Theorem pause_after_each_success config env feed w :
  fst (check_feed config env feed w) = Returns tt ->
  exists ds,
    deliveries (snd (check_feed config env feed w)) = deliveries w ++ ds
    ∧ slept (snd (check_feed config env feed w))
      = slept w + 2 * length (filter (fun d => delivery_ok d = true) ds).
Proof.
  unfold check_feed, bind.
  destruct (feedparser_parse env (clock w) feed) as [f|x]; cbv beta iota;
    [|discriminate].
  destruct (entries f) as [|e0 es] eqn:He.
  - intros _. exists []. simpl. rewrite app_nil_r. split; [reflexivity|lia].
  - assert (Hd0 : deliveries (snd (setdefault feed (tick w))) = deliveries w
                  ∧ slept (snd (setdefault feed (tick w))) = slept w).
    { unfold setdefault, modify. simpl.
      destruct (sent_items w !! feed); split; reflexivity. }
    assert (Hsd : setdefault feed (tick w)
                  = (Returns tt, snd (setdefault feed (tick w)))) by reflexivity.
    remember (snd (setdefault feed (tick w))) as w2 eqn:Ew2. clear Ew2.
    rewrite Hsd. cbv beta iota. destruct Hd0 as [Hd0 Hz0].
    pose proof (identify_new_pure feed (e0 :: es) [] w2) as Hpure.
    destruct (identify_new feed (e0 :: es) [] w2) as [[r|x] w3];
      cbn [fst snd] in Hpure; subst w3; cbv beta iota; [|discriminate].
    intros Hr.
    destruct (pause_loop config env feed (default feed (feed_title_attr f))
                (rev r) w2 Hr) as (ds & H1 & H2).
    exists ds. rewrite H1, H2, Hd0, Hz0. split; reflexivity.
Qed.

Lemma pause_after_each_success_witness :
  exists ds,
    deliveries (snd (check_feed Samples.cfg Samples.three_feed_env Samples.feed_url
                       Samples.fresh_world))
    = deliveries Samples.fresh_world ++ ds
    ∧ slept (snd (check_feed Samples.cfg Samples.three_feed_env Samples.feed_url
                    Samples.fresh_world))
      = slept Samples.fresh_world
        + 2 * length (filter (fun d => delivery_ok d = true) ds).
Proof.
  apply (pause_after_each_success Samples.cfg Samples.three_feed_env
           Samples.feed_url Samples.fresh_world).
  vm_compute. reflexivity.
Defined.

(* ===================================================================== *)
(** ** Start of the program *)
(* ===================================================================== *)

Lemma send_telegram_message_returns config env chat text topic w :
  exists ok, fst (send_telegram_message config env chat text topic w) = Returns ok.
Proof.
  unfold send_telegram_message, try_except, bind, thread_of, bot_call, logger,
    modify, ret.
  cbn [is_Exception].
  destruct (thread_value env topic) as [thread|e]; cbv beta iota zeta; [|eauto].
  destruct (bot_answer env (clock w) _); eauto.
Qed.

(** X14. Without the bot token or without the chat identifier (unset or
    empty), [main_async] logs the error and returns: it sends no
    message and never enters the polling loop. *)
Theorem main_async_missing_credentials config env cycles w :
  truthy_opt (TELEGRAM_BOT_TOKEN config) = false
  ∨ truthy_opt (TELEGRAM_CHAT_ID config) = false ->
  main_async config env cycles w
  = (Returns tt,
     add_log (ERROR, MissingEnvironment)
       (add_log (INFO, ConfigurationLine (INCLUDE_DESCRIPTION config)
                         (DISABLE_NOTIFICATION config))
          (add_log (INFO, StartingMonitoring) w))).
Proof.
  intros H. unfold main_async, bind, logger, modify. cbv beta iota.
  destruct H as [-> | ->]; [reflexivity|].
  rewrite orb_true_r. reflexivity.
Qed.

Lemma main_async_missing_credentials_witness :
  main_async Samples.cfg_no_token Samples.three_feed_env 3 Samples.fresh_world
  = (Returns tt,
     add_log (ERROR, MissingEnvironment)
       (add_log (INFO, ConfigurationLine
                         (INCLUDE_DESCRIPTION Samples.cfg_no_token)
                         (DISABLE_NOTIFICATION Samples.cfg_no_token))
          (add_log (INFO, StartingMonitoring) Samples.fresh_world))).
Proof.
  apply (main_async_missing_credentials Samples.cfg_no_token Samples.three_feed_env
           3 Samples.fresh_world).
  left. reflexivity.
Defined.

(** X13. With both credentials, the polling loop starts whatever became of
    the startup message: a destination that refuses it, or a topic
    identifier that is not a number, is logged by
    [send_telegram_message] and does not keep [main_async] from
    polling. *)
Theorem main_async_starts_polling config env cycles w :
  truthy_opt (TELEGRAM_BOT_TOKEN config) = true ->
  truthy_opt (TELEGRAM_CHAT_ID config) = true ->
  main_async config env cycles w
  = poll_loop config env cycles
      (snd (send_telegram_message config env (TELEGRAM_CHAT_ID config)
              startup_text (TELEGRAM_TOPIC_ID config)
              (add_log (INFO, ConfigurationLine (INCLUDE_DESCRIPTION config)
                                (DISABLE_NOTIFICATION config))
                 (add_log (INFO, StartingMonitoring) w)))).
Proof.
  intros Ht Hc. unfold main_async, bind, logger, modify. cbv beta iota.
  rewrite Ht, Hc. cbn [negb orb].
  set (w2 := add_log _ (add_log _ w)).
  destruct (send_telegram_message_returns config env (TELEGRAM_CHAT_ID config)
              startup_text (TELEGRAM_TOPIC_ID config) w2) as [ok Hok].
  destruct (send_telegram_message _ _ _ _ _ w2) as [[ok'|e] w3];
    [reflexivity|discriminate].
Qed.

Lemma main_async_starts_polling_witness :
  main_async Samples.cfg Samples.deaf_env 1 Samples.fresh_world
  = poll_loop Samples.cfg Samples.deaf_env 1
      (snd (send_telegram_message Samples.cfg Samples.deaf_env
              (TELEGRAM_CHAT_ID Samples.cfg) startup_text
              (TELEGRAM_TOPIC_ID Samples.cfg)
              (add_log (INFO, ConfigurationLine
                                (INCLUDE_DESCRIPTION Samples.cfg)
                                (DISABLE_NOTIFICATION Samples.cfg))
                 (add_log (INFO, StartingMonitoring) Samples.fresh_world)))).
Proof.
  exact (main_async_starts_polling Samples.cfg Samples.deaf_env 1
           Samples.fresh_world eq_refl eq_refl).
Defined.

(* ===================================================================== *)
(** ** The image pattern, both ways *)
(* ===================================================================== *)

Lemma search_img_first_witness :
  exists pre rest,
    lit "<p><IMG class='c' src='a.png' alt='x'></p>" = pre ++ rest
    ∧ img_tag rest (lit "a.png")
    ∧ forall pre1 rest1 g1,
        lit "<p><IMG class='c' src='a.png' alt='x'></p>" = pre1 ++ rest1 ->
        length pre1 < length pre -> ¬ img_tag rest1 g1.
Proof.
  exact (search_img_first (lit "<p><IMG class='c' src='a.png' alt='x'></p>")
           (lit "a.png") eq_refl).
Defined.

(** X21. [re.search] with the image pattern finds nothing exactly in the
    texts in which no image tag starts anywhere. *)
Theorem search_img_none_iff s :
  Re.search_img s = None
  <-> forall pre rest g, s = pre ++ rest -> ¬ img_tag rest g.
Proof.
  split.
  - apply search_img_absent.
  - intros Hno. destruct (Re.search_img s) as [g|] eqn:Hs; [|reflexivity].
    destruct (search_img_Some s g Hs) as (pre & rest & Heq & Hm & _).
    exfalso. apply (Hno pre rest g Heq). apply match_img_Some, Hm.
Qed.
